(** * Modex ticket booking backend: reservation engine and expiry worker

    A shallow embedding of [src/services/booking.service.ts],
    [src/controllers/bookings.controller.ts], [src/services/show.service.ts]
    and [src/workers/expiry.worker.ts] over a relational store with the
    schema of [migrations/1_init.sql], followed by the properties of the
    reservation protocol and of the expiry cycle. *)

From Stdlib Require Import String Ascii.
From Stdlib Require Import List Bool Arith ZArith NArith Lia Permutation.
Import ListNotations.

Local Open Scope string_scope.
Local Open Scope list_scope.

(** ** JavaScript strings

    A JavaScript string is a sequence of UTF-16 code units. Seat labels
    travel as such strings from the request body to the [seat_number]
    column. *)

Module Js.

Definition jsstring := list N.

Definition lit (s : string) : jsstring :=
  map N_of_ascii (list_ascii_of_string s).

Definition jsstring_eqb (a b : jsstring) : bool :=
  if list_eq_dec N.eq_dec a b then true else false.

(** WhiteSpace and LineTerminator code points, the characters
    [String.prototype.trim] strips. *)
Definition isWhiteSpace (c : N) : bool :=
  ((9 <=? c) && (c <=? 13) || (c =? 32) || (c =? 160) || (c =? 5760)
   || (8192 <=? c) && (c <=? 8202) || (c =? 8232) || (c =? 8233)
   || (c =? 8239) || (c =? 8287) || (c =? 12288) || (c =? 65279))%N.

Fixpoint trimStart (s : jsstring) : jsstring :=
  match s with
  | [] => []
  | c :: r => if isWhiteSpace c then trimStart r else s
  end.

Definition trimEnd (s : jsstring) : jsstring := rev (trimStart (rev s)).

Definition trim (s : jsstring) : jsstring := trimEnd (trimStart s).

(** A string is trimmed when neither end carries white space. *)
Definition trimmed (s : jsstring) : Prop :=
  (forall c r, s = c :: r -> isWhiteSpace c = false) /\
  (forall c r, s = r ++ [c] -> isWhiteSpace c = false).

(** [Number.prototype.toString] on a non-negative integer. *)
Definition digit (n : nat) : N := N.of_nat (48 + n).

Fixpoint toStringFuel (fuel n : nat) (acc : jsstring) : jsstring :=
  match fuel with
  | O => acc
  | S k =>
      let acc' := digit (n mod 10) :: acc in
      if Nat.eqb (n / 10) 0 then acc' else toStringFuel k (n / 10) acc'
  end.

Definition toString (n : nat) : jsstring := toStringFuel (S n) n [].

End Js.

Import Js.

(** ** Rows and tables (migrations/1_init.sql) *)

(** UUIDs are handled as text by the services. *)
Definition uuid := jsstring.

Inductive SeatStatus := AVAILABLE | BOOKED.

Inductive BookingStatus := PENDING | CONFIRMED | FAILED.

Definition SeatStatus_eqb (a b : SeatStatus) : bool :=
  match a, b with
  | AVAILABLE, AVAILABLE | BOOKED, BOOKED => true
  | _, _ => false
  end.

Definition BookingStatus_eqb (a b : BookingStatus) : bool :=
  match a, b with
  | PENDING, PENDING | CONFIRMED, CONFIRMED | FAILED, FAILED => true
  | _, _ => false
  end.

Record Show := mkShow {
  sh_id : uuid;
  sh_name : jsstring;
  sh_start_time : Z;
  sh_total_seats : Z
}.

Record SeatRow := mkSeat {
  seat_id : uuid;
  seat_show_id : uuid;
  seat_number : jsstring;
  seat_status : SeatStatus
}.

Record Booking := mkBooking {
  id : uuid;
  show_id : uuid;
  user_id : option uuid;
  seats : list uuid;
  status : BookingStatus;
  created_at : Z;
  updated_at : Z
}.

(** The tables keep their rows in heap order: a query without
    [ORDER BY] returns the matching rows in that order. *)
Record Store := mkStore {
  shows_tbl : list Show;
  seats_tbl : list SeatRow;
  bookings_tbl : list Booking
}.

Definition emptyStore : Store := mkStore [] [] [].

(** [x = ANY(l)] *)
Definition any_eq (x : jsstring) (l : list jsstring) : bool :=
  existsb (jsstring_eqb x) l.

(** ** Statements, errors and log records *)

Inductive Stmt :=
| SConnect
| SBegin
| SCommit
| SRollback
| SLockSeats (showId : uuid) (seatNumbers : list jsstring)
| SInsertBooking (bookingId showId : uuid) (userId : option uuid)
    (seatIds : list uuid)
| SMarkSeatsBooked (seatIds : list uuid)
| SMarkBookingFailed (bookingId : uuid)
| SInsertShow (showId : uuid) (name : jsstring) (start_time : Z)
    (totalSeats : Z)
| SInsertSeats (rows : list (uuid * uuid * jsstring))
| STryAdvisoryLock
| SAdvisoryUnlock
| SFetchCandidates (expireMinutes : Z)
| SLockBooking (bookingId : uuid)
| SExpireBooking (bookingId : uuid)
| SFreeSeats (seatIds : list uuid)
| SSelectBooking (bookingId : uuid).

Inductive Error :=
| ShowIdRequired
| SeatNumbersEmpty
| SeatsDoNotExist
| SeatTaken (seatNumber : jsstring)
| BookingIdRequired
| InvalidName
| InvalidStartTime
| InvalidTotalSeats
| StoreFailure (s : Stmt)
| DoubleRelease
| ApiError (statusCode : nat) (message : jsstring).

Inductive Level := Debug | Info | Warn | Err.

Inductive LogMsg :=
| StartingSeatLocking (bookingId : uuid)
| BookingCreated (bookingId : uuid) (seatCount : nat)
| BookingRolledBack (bookingId : uuid) (e : Error)
| DbQueryError (s : Stmt)
| DbClientError
| ShowCreated (showId : uuid)
| CreateShowFailed (e : Error)
| AdvisoryLockError
| AdvisoryUnlockFailed
| LockHeldElsewhere
| StartingExpiryCycle (expireMinutes : Z)
| NoPendingBookings
| FoundPending (count : nat)
| BookingNotFound (bookingId : uuid)
| NoLongerPending (bookingId : uuid) (s : BookingStatus)
| ExpiredBooking (bookingId : uuid) (freedSeats : nat)
| FailedToExpire (bookingId : uuid) (e : Error)
| MainLoopError (e : Error)
| CreatingBooking
| CreateBookingFailed (e : Error).

Inductive Event :=
| EvStmt (s : Stmt)
| EvLog (l : Level) (m : LogMsg)
| EvRelease.

(** What lies outside the repository: which statements the store refuses
    (I/O error, deadlock victim, a violated foreign key, ...; a refused
    statement has no effect), and whether the connection pool throws when
    a client is released a second time. *)
Definition faults := Stmt -> bool.

Record Pg := mkPg {
  refuses : faults;
  throwsOnDoubleRelease : bool
}.

Definition noFaults : faults := fun _ => false.

(** ** The effect monad

    [committed] is the durable state every session sees; [working] is the
    state inside the open transaction of the current client; [leased] are
    the pool clients checked out and not yet released. *)

Definition Client := nat.

Record World := mkWorld {
  committed : Store;
  working : Store;
  leased : list Client;
  clients : nat;
  events : list Event
}.

Inductive Result (A : Type) :=
| Ok (a : A)
| Throw (e : Error).

Arguments Ok {A} a.
Arguments Throw {A} e.

Definition M (A : Type) := World -> Result A * World.

Definition ret {A} (a : A) : M A := fun w => (Ok a, w).

Definition throw {A} (e : Error) : M A := fun w => (Throw e, w).

Definition bind {A B} (m : M A) (k : A -> M B) : M B :=
  fun w =>
    match m w with
    | (Ok a, w') => k a w'
    | (Throw e, w') => (Throw e, w')
    end.

Declare Scope js_scope.
Delimit Scope js_scope with js.
Notation "x <- m ;; k" := (bind m (fun x => k))
  (at level 61, m at next level, right associativity) : js_scope.
Notation "m ;; k" := (bind m (fun _ => k))
  (at level 61, right associativity) : js_scope.
Local Open Scope js_scope.

(** [try { body } catch (err) { handler err }] *)
Definition tryCatch {A} (body : M A) (handler : Error -> M A) : M A :=
  fun w =>
    match body w with
    | (Ok a, w') => (Ok a, w')
    | (Throw e, w') => handler e w'
    end.

(** [try { body } finally { fin }]: [fin] always runs, and an error it
    throws replaces the completion of [body]. *)
Definition finally {A} (body : M A) (fin : M unit) : M A :=
  fun w =>
    let (r, w') := body w in
    match fin w' with
    | (Ok _, w'') => (r, w'')
    | (Throw e, w'') => (Throw e, w'')
    end.

Definition emit (e : Event) : M unit :=
  fun w => (Ok tt, mkWorld (committed w) (working w) (leased w) (clients w)
                     (events w ++ [e])).

Definition log (l : Level) (m : LogMsg) : M unit := emit (EvLog l m).

Definition getWorking : M Store := fun w => (Ok (working w), w).

Definition getCommitted : M Store := fun w => (Ok (committed w), w).

Definition putWorking (s : Store) : M unit :=
  fun w => (Ok tt, mkWorld (committed w) s (leased w) (clients w) (events w)).

Definition putCommitted (s : Store) : M unit :=
  fun w => (Ok tt, mkWorld s (working w) (leased w) (clients w) (events w)).

Definition initWorld (st : Store) : World := mkWorld st st [] 0 [].

Definition run {A} (m : M A) (st : Store) : Result A * Store * list Event :=
  let (r, w) := m (initWorld st) in (r, committed w, events w).

(** [for (const x of xs) { body x }]: an error thrown by one iteration
    leaves the loop. *)
Fixpoint forOf {A} (xs : list A) (body : A -> M unit) : M unit :=
  match xs with
  | [] => ret tt
  | x :: r => body x ;; forOf r body
  end.

(** ** Relational operations on a store *)

(** [WHERE show_id = $1 AND seat_number = ANY($2)] *)
Definition selectSeats (showId : uuid) (seatNumbers : list jsstring)
    (st : Store) : list SeatRow :=
  filter (fun s => jsstring_eqb (seat_show_id s) showId
                   && any_eq (seat_number s) seatNumbers)
         (seats_tbl st).

Definition withStatus (v : SeatStatus) (s : SeatRow) : SeatRow :=
  mkSeat (seat_id s) (seat_show_id s) (seat_number s) v.

(** [UPDATE seats SET status = v WHERE id = ANY($1)] *)
Definition updateSeats (seatIds : list uuid) (v : SeatStatus) (st : Store)
    : Store :=
  mkStore (shows_tbl st)
          (map (fun s => if any_eq (seat_id s) seatIds then withStatus v s
                         else s) (seats_tbl st))
          (bookings_tbl st).

Definition hasBooking (bookingId : uuid) (st : Store) : bool :=
  existsb (fun b => jsstring_eqb (id b) bookingId) (bookings_tbl st).

Definition insertBookingRow (b : Booking) (st : Store) : Store :=
  mkStore (shows_tbl st) (seats_tbl st) (bookings_tbl st ++ [b]).

(** [WHERE id = $1] on bookings *)
Definition selectBooking (bookingId : uuid) (st : Store) : list Booking :=
  filter (fun b => jsstring_eqb (id b) bookingId) (bookings_tbl st).

Definition withBookingStatus (v : BookingStatus) (upd : Z) (b : Booking)
    : Booking :=
  mkBooking (id b) (show_id b) (user_id b) (seats b) v (created_at b) upd.

(** [UPDATE bookings SET status = 'FAILED' WHERE id = $1] *)
Definition markFailed (bookingId : uuid) (st : Store) : Store :=
  mkStore (shows_tbl st) (seats_tbl st)
          (map (fun b => if jsstring_eqb (id b) bookingId
                         then withBookingStatus FAILED (updated_at b) b
                         else b) (bookings_tbl st)).

(** [UPDATE bookings SET status = 'FAILED', updated_at = now()
     WHERE id = $1] *)
Definition markExpired (bookingId : uuid) (now : Z) (st : Store) : Store :=
  mkStore (shows_tbl st) (seats_tbl st)
          (map (fun b => if jsstring_eqb (id b) bookingId
                         then withBookingStatus FAILED now b
                         else b) (bookings_tbl st)).

(** Stable sort by [created_at], the order [ORDER BY created_at ASC]
    gives over the heap order. *)
Fixpoint insertByCreated (b : Booking) (l : list Booking) : list Booking :=
  match l with
  | [] => [b]
  | x :: r => if (created_at b <? created_at x)%Z then b :: l
              else x :: insertByCreated b r
  end.

Definition sortByCreated (l : list Booking) : list Booking :=
  fold_right insertByCreated [] l.

Definition microsPerMinute : Z := 60000000.

(** [WHERE status = 'PENDING'
       AND created_at < now() - ($1 || ' minutes')::interval] *)
Definition isStale (now expireMinutes : Z) (b : Booking) : bool :=
  BookingStatus_eqb (status b) PENDING
  && (created_at b <? now - expireMinutes * microsPerMinute)%Z.

Definition batchLimit : nat := 100.

(** The candidate query of the expiry worker, [LIMIT 100]. *)
Definition selectCandidates (now expireMinutes : Z) (st : Store)
    : list Booking :=
  firstn batchLimit
    (sortByCreated (filter (isStale now expireMinutes) (bookings_tbl st))).

Fixpoint nodupb (l : list jsstring) : bool :=
  match l with
  | [] => true
  | x :: r => negb (any_eq x r) && nodupb r
  end.

Definition seatKey (s : SeatRow) : jsstring * jsstring :=
  (seat_show_id s, seat_number s).

Definition seatKey_eqb (a b : jsstring * jsstring) : bool :=
  jsstring_eqb (fst a) (fst b) && jsstring_eqb (snd a) (snd b).

Fixpoint nodupKeys (l : list (jsstring * jsstring)) : bool :=
  match l with
  | [] => true
  | x :: r => negb (existsb (seatKey_eqb x) r) && nodupKeys r
  end.

(** [PRIMARY KEY (id)] and [UNIQUE (show_id, seat_number)] on seats. *)
Definition seatsConstraints (tbl : list SeatRow) : bool :=
  nodupb (map seat_id tbl) && nodupKeys (map seatKey tbl).

Definition hasShow (showId : uuid) (st : Store) : bool :=
  existsb (fun s => jsstring_eqb (sh_id s) showId) (shows_tbl st).

(** ** src/db/index.ts and the pg pool *)

Section Db.

Variable pg : Pg.

(** Sending a statement: it is refused when the fault plan says so. *)
Definition query (s : Stmt) : M unit :=
  emit (EvStmt s) ;;
  if refuses pg s then throw (StoreFailure s) else ret tt.

(** [pool.connect()] *)
Definition poolConnect : M Client :=
  query SConnect ;;
  fun w => (Ok (clients w),
            mkWorld (committed w) (working w) (clients w :: leased w)
              (S (clients w)) (events w)).

(** [client.release()] *)
Definition release (c : Client) : M unit :=
  emit EvRelease ;;
  fun w =>
    if existsb (Nat.eqb c) (leased w)
    then (Ok tt, mkWorld (committed w) (working w)
                   (filter (fun x => negb (Nat.eqb c x)) (leased w))
                   (clients w) (events w))
    else if throwsOnDoubleRelease pg then (Throw DoubleRelease, w)
    else (Ok tt, w).

Definition BEGIN : M unit :=
  query SBegin ;; c <- getCommitted ;; putWorking c.

Definition COMMIT : M unit :=
  query SCommit ;; w <- getWorking ;; putCommitted w.

Definition ROLLBACK : M unit :=
  query SRollback ;; c <- getCommitted ;; putWorking c.

(** [db.getClient] *)
Definition getClient : M Client :=
  tryCatch poolConnect
    (fun err => log Err DbClientError ;; throw err).

(** [db.query]: one statement on a pooled connection, committed on its
    own. *)
Definition dbQuery {A} (s : Stmt) (effect : Store -> A * Store) : M A :=
  tryCatch
    (query s ;;
     c <- getCommitted ;;
     putCommitted (snd (effect c)) ;;
     ret (fst (effect c)))
    (fun err => log Err (DbQueryError s) ;; throw err).

End Db.

(** ** src/services/booking.service.ts *)

Section BookingService.

Variable pg : Pg.

(** The value [uuidv4()] returns in this call and the store's [now()]. *)
Variable bookingId : uuid.
Variable now : Z.

Definition lockSeats (showId : uuid) (seatNumbers : list jsstring)
    : M (list SeatRow) :=
  query pg (SLockSeats showId seatNumbers) ;;
  w <- getWorking ;;
  ret (selectSeats showId seatNumbers w).

(** The insert is refused when the primary key is already taken. *)
Definition insertBooking (showId : uuid) (userId : option uuid)
    (seatIds : list uuid) : M Booking :=
  let s := SInsertBooking bookingId showId userId seatIds in
  query pg s ;;
  w <- getWorking ;;
  if hasBooking bookingId w then throw (StoreFailure s)
  else
    let b := mkBooking bookingId showId userId seatIds PENDING now now in
    putWorking (insertBookingRow b w) ;;
    ret b.

Definition markSeatsBooked (seatIds : list uuid) : M unit :=
  query pg (SMarkSeatsBooked seatIds) ;;
  w <- getWorking ;;
  putWorking (updateSeats seatIds BOOKED w).

Definition isTaken (s : SeatRow) : bool :=
  negb (SeatStatus_eqb (seat_status s) AVAILABLE).

Definition createBooking (showId : uuid) (seatNumbers : list jsstring)
    (userId : option uuid) : M Booking :=
  if jsstring_eqb showId [] then throw ShowIdRequired
  else if Nat.eqb (length seatNumbers) 0 then throw SeatNumbersEmpty
  else
    client <- getClient pg ;;
    finally
      (tryCatch
         (BEGIN pg ;;
          log Info (StartingSeatLocking bookingId) ;;
          seatRes <- lockSeats showId seatNumbers ;;
          if negb (Nat.eqb (length seatRes) (length seatNumbers))
          then throw SeatsDoNotExist
          else
            match find isTaken seatRes with
            | Some taken => throw (SeatTaken (seat_number taken))
            | None =>
                let seatIds := map seat_id seatRes in
                b <- insertBooking showId userId seatIds ;;
                markSeatsBooked seatIds ;;
                COMMIT pg ;;
                log Info (BookingCreated bookingId (length seatIds)) ;;
                ret b
            end)
         (fun err =>
            ROLLBACK pg ;;
            log Err (BookingRolledBack bookingId err) ;;
            tryCatch
              (dbQuery pg (SMarkBookingFailed bookingId)
                 (fun c => (tt, markFailed bookingId c)))
              (fun _ => ret tt) ;;
            throw err))
      (release pg client).

Definition getBooking (id0 : uuid) : M (option Booking) :=
  if jsstring_eqb id0 [] then throw BookingIdRequired
  else
    dbQuery pg (SSelectBooking id0)
      (fun c => (hd_error (selectBooking id0 c), c)).

End BookingService.

(** ** src/controllers/bookings.controller.ts *)

#[local] Unset Elimination Schemes.
Inductive JsValue :=
| JUndefined
| JNull
| JBool (b : bool)
| JNumber (z : Z)
| JString (s : jsstring)
| JArray (l : list JsValue)
| JObject (fields : list (string * JsValue)).
#[local] Set Elimination Schemes.

Definition getField (name : string) (v : JsValue) : JsValue :=
  match v with
  | JObject fields =>
      match find (fun kv => String.eqb (fst kv) name) fields with
      | Some kv => snd kv
      | None => JUndefined
      end
  | _ => JUndefined
  end.

(** What the handler hands back: the 201 answer, or the argument it
    calls [next] with. *)
Inductive Response :=
| Created (b : Booking)
| Next (e : Error).

(** [!body || typeof body !== 'object'] *)
Definition notAnObject (v : JsValue) : bool :=
  match v with
  | JArray _ | JObject _ => false
  | _ => true
  end.

(** The loop over [seatNumbers]: every entry is a string whose trimmed
    form is not empty. *)
Fixpoint seatEntries (l : list JsValue) : option (list jsstring) :=
  match l with
  | [] => Some []
  | JString s :: r =>
      if Nat.eqb (length (trim s)) 0 then None
      else match seatEntries r with
           | Some ss => Some (s :: ss)
           | None => None
           end
  | _ :: _ => None
  end.

(** [String.prototype.includes] *)
Fixpoint startsWith (s sub : jsstring) : bool :=
  match sub, s with
  | [], _ => true
  | a :: sub', b :: s' => N.eqb a b && startsWith s' sub'
  | _ :: _, [] => false
  end.

Fixpoint includes (s sub : jsstring) : bool :=
  startsWith s sub ||
  match s with
  | [] => false
  | _ :: s' => includes s' sub
  end.

(** The values JavaScript takes for false in [userId || null]. *)
Definition falsy (v : JsValue) : bool :=
  match v with
  | JUndefined | JNull | JBool false | JNumber 0 | JString [] => true
  | _ => false
  end.

Section BookingsController.

Variable pg : Pg.
Variable bookingId : uuid.
Variable now : Z.

(** [err.message] of an error the store raised: the text is the
    server's, not the repository's. *)
Variable pgMessage : Stmt -> jsstring.

(** The text the database client sends for a statement parameter that is
    not a string. *)
Variable prepareValue : JsValue -> jsstring.

Definition message (e : Error) : jsstring :=
  match e with
  | ShowIdRequired => lit "showId is required"
  | SeatNumbersEmpty => lit "seatNumbers must be a non-empty array"
  | SeatsDoNotExist => lit "One or more seats do not exist for this show."
  | SeatTaken n =>
      lit "Seat " ++ n ++ lit " is already booked or unavailable."
  | BookingIdRequired => lit "bookingId is required"
  | InvalidName => lit "Invalid name"
  | InvalidStartTime => lit "Invalid start_time"
  | InvalidTotalSeats => lit "totalSeats must be a positive integer"
  | StoreFailure s => pgMessage s
  | DoubleRelease =>
      lit "Release called on client which has already been released to the pool."
  | ApiError _ m => m
  end.

(** [userId || null]: a value that is not false in JavaScript is passed
    on as it is, whatever its type. *)
Definition userIdOrNull (v : JsValue) : option uuid :=
  if falsy v then None
  else Some match v with
            | JString s => s
            | _ => prepareValue v
            end.

(** The test of the [catch] block on [err.message]. *)
Definition looksLikeValidation (e : Error) : bool :=
  includes (message e) (lit "not found")
  || includes (message e) (lit "not available")
  || includes (message e) (lit "required").

(** The four checks before the [try] throw; the router's wrapper hands
    what the handler throws to [next]. *)
Definition handleCreateBooking (body : JsValue) : M Response :=
  if notAnObject body then throw (ApiError 400 (lit "Invalid request body"))
  else
    match getField "showId" body with
    | JString (c :: r) =>
        let showId := c :: r in
        match getField "seatNumbers" body with
        | JArray (x :: xs) =>
            match seatEntries (x :: xs) with
            | None =>
                throw (ApiError 400
                         (lit "Each seatNumber must be a non-empty string"))
            | Some seatNumbers =>
                tryCatch
                  (log Info CreatingBooking ;;
                   booking <- createBooking pg bookingId now showId
                                (map trim seatNumbers)
                                (userIdOrNull (getField "userId" body)) ;;
                   ret (Created booking))
                  (fun err =>
                     log Err (CreateBookingFailed err) ;;
                     if looksLikeValidation err
                     then ret (Next (ApiError 400 (message err)))
                     else ret (Next err))
            end
        | _ =>
            throw (ApiError 400
                     (lit "seatNumbers is required and must be a non-empty array of seat identifiers"))
        end
    | _ => throw (ApiError 400 (lit "showId is required and must be a string"))
    end.

End BookingsController.

(** ** src/services/show.service.ts *)

Section ShowService.

Variable pg : Pg.

(** [new Date(start_time).getTime()], [None] standing for [NaN]. *)
Variable parseDate : jsstring -> option Z.

(** The identifiers [uuidv4()] returns: for the show, and for the seat
    numbered [i]. *)
Variable showId : uuid.
Variable seatUuid : nat -> uuid.

(** The loop [for (let i = 1; i <= totalSeats; i++)]. *)
Definition seatParams (totalSeats : Z) : list (uuid * uuid * jsstring) :=
  map (fun i => (seatUuid i, showId, toString i))
      (seq 1 (Z.to_nat totalSeats)).

Definition insertShow (name : jsstring) (start : Z) (totalSeats : Z)
    : M unit :=
  let s := SInsertShow showId name start totalSeats in
  query pg s ;;
  w <- getWorking ;;
  if hasShow showId w then throw (StoreFailure s)
  else putWorking (mkStore (shows_tbl w ++ [mkShow showId name start
                                              totalSeats])
                     (seats_tbl w) (bookings_tbl w)).

Definition insertSeats (rows : list (uuid * uuid * jsstring)) : M unit :=
  let s := SInsertSeats rows in
  query pg s ;;
  w <- getWorking ;;
  let tbl := seats_tbl w ++
             map (fun r => mkSeat (fst (fst r)) (snd (fst r)) (snd r)
                             AVAILABLE) rows in
  if seatsConstraints tbl
     && forallb (fun r => hasShow (snd (fst r)) w) rows
  then putWorking (mkStore (shows_tbl w) tbl (bookings_tbl w))
  else throw (StoreFailure s).

Definition createShow (name start_time : jsstring) (totalSeats : Z)
    : M Show :=
  if Nat.eqb (length name) 0 then throw InvalidName
  else
    match (if Nat.eqb (length start_time) 0 then None
           else parseDate start_time) with
    | None => throw InvalidStartTime
    | Some start =>
        if (totalSeats <=? 0)%Z then throw InvalidTotalSeats
        else
          client <- getClient pg ;;
          finally
            (tryCatch
               (BEGIN pg ;;
                insertShow name start totalSeats ;;
                let params := seatParams totalSeats in
                (if Nat.ltb 0 (length params) then insertSeats params
                 else ret tt) ;;
                COMMIT pg ;;
                log Info (ShowCreated showId) ;;
                ret (mkShow showId name start totalSeats))
               (fun err =>
                  ROLLBACK pg ;;
                  log Err (CreateShowFailed err) ;;
                  throw err))
            (release pg client)
    end.

End ShowService.

(** ** src/workers/expiry.worker.ts *)

Section ExpiryWorker.

(** [pg] is the worker's own connection; [itemFaults b] is what the store
    refuses during the transaction on booking [b], whose [now()] is
    [txNow b]. *)
Variable pg : Pg.
Variable itemFaults : uuid -> faults.
Variable EXPIRE_MINUTES : Z.
Variable now : Z.
Variable txNow : uuid -> Z.

(** Whether [pg_try_advisory_lock] finds the lock free. *)
Variable lockFree : bool.

Definition itemPg (bookingId : uuid) : Pg :=
  mkPg (itemFaults bookingId) (throwsOnDoubleRelease pg).

Definition tryAcquireAdvisoryLock : M bool :=
  tryCatch
    (query pg STryAdvisoryLock ;; ret lockFree)
    (fun _ => log Err AdvisoryLockError ;; ret false).

Definition releaseAdvisoryLock : M unit :=
  tryCatch
    (query pg SAdvisoryUnlock)
    (fun _ => log Warn AdvisoryUnlockFailed).

Definition fetchCandidates : M (list uuid) :=
  query pg (SFetchCandidates EXPIRE_MINUTES) ;;
  c <- getCommitted ;;
  ret (map id (selectCandidates now EXPIRE_MINUTES c)).

(** The body of the loop over [bookingsToExpire]. The two branches that
    end by [continue] release the client themselves; the [finally] block
    releases it in every case. *)
Definition expireOne (bookingId : uuid) : M unit :=
  let p := itemPg bookingId in
  txClient <- poolConnect p ;;
  finally
    (tryCatch
       (BEGIN p ;;
        query p (SLockBooking bookingId) ;;
        w <- getWorking ;;
        match selectBooking bookingId w with
        | [] =>
            ROLLBACK p ;;
            log Warn (BookingNotFound bookingId) ;;
            release p txClient
        | booking :: _ =>
            if negb (BookingStatus_eqb (status booking) PENDING)
            then
              ROLLBACK p ;;
              log Info (NoLongerPending bookingId (status booking)) ;;
              release p txClient
            else
              let seatIds := seats booking in
              query p (SExpireBooking bookingId) ;;
              w1 <- getWorking ;;
              putWorking (markExpired bookingId (txNow bookingId) w1) ;;
              (if Nat.ltb 0 (length seatIds)
               then query p (SFreeSeats seatIds) ;;
                    w2 <- getWorking ;;
                    putWorking (updateSeats seatIds AVAILABLE w2)
               else ret tt) ;;
              COMMIT p ;;
              log Info (ExpiredBooking bookingId (length seatIds))
        end)
       (fun err =>
          ROLLBACK p ;;
          log Err (FailedToExpire bookingId err)))
    (release p txClient).

(** [tryAcquireAdvisoryLock] never throws, so [gotLock] is assigned
    before anything in the outer [try] can fail. *)
Definition processExpiryCycle : M unit :=
  client <- poolConnect pg ;;
  gotLock <- tryAcquireAdvisoryLock ;;
  finally
    (tryCatch
       (if negb gotLock then log Info LockHeldElsewhere
        else
          log Info (StartingExpiryCycle EXPIRE_MINUTES) ;;
          bookingsToExpire <- fetchCandidates ;;
          if Nat.eqb (length bookingsToExpire) 0
          then log Debug NoPendingBookings
          else
            log Info (FoundPending (length bookingsToExpire)) ;;
            forOf bookingsToExpire expireOne)
       (fun err => log Err (MainLoopError err)))
    ((if gotLock then releaseAdvisoryLock else ret tt) ;;
     release pg client).

End ExpiryWorker.

(** * The store as a transition system *)

(** What [getBooking] reads: the first row with the given id. *)
Definition lookupBooking (bookingId : uuid) (st : Store) : option Booking :=
  hd_error (selectBooking bookingId st).

Definition statusOf (bookingId : uuid) (st : Store) : option BookingStatus :=
  option_map status (lookupBooking bookingId st).

(** The effect of a committed per-booking expiry transaction. *)
Definition expireStore (now : Z) (bookingId : uuid) (st : Store) : Store :=
  match selectBooking bookingId st with
  | [] => st
  | b :: _ =>
      if BookingStatus_eqb (status b) PENDING
      then updateSeats (seats b) AVAILABLE (markExpired bookingId now st)
      else st
  end.

(** Whether the store refuses one of the statements of the expiry
    transaction on booking [b]. *)
Definition txRefused (f : faults) (b : Booking) : bool :=
  f SBegin || f (SLockBooking (id b)) || f (SExpireBooking (id b))
  || (Nat.ltb 0 (length (seats b)) && f (SFreeSeats (seats b)))
  || f SCommit.

(** The committed store after the loop body ran on one candidate whose
    connection and rollback were not refused. *)
Definition itemStore (itemFaults : uuid -> faults) (txNow : uuid -> Z)
    (st : Store) (bookingId : uuid) : Store :=
  match selectBooking bookingId st with
  | [] => st
  | b :: _ =>
      if txRefused (itemFaults bookingId) b then st
      else expireStore (txNow bookingId) bookingId st
  end.

(** A reservation is terminal once [FAILED] or [CONFIRMED]; it holds its
    units while [PENDING] or [CONFIRMED]. *)
Definition isTerminal (s : BookingStatus) : bool :=
  match s with
  | PENDING => false
  | CONFIRMED | FAILED => true
  end.

Definition holdsUnits (b : Booking) : bool :=
  negb (BookingStatus_eqb (status b) FAILED).

(** The reservations holding unit [u]. *)
Definition holders (u : uuid) (st : Store) : list Booking :=
  filter (fun b => holdsUnits b && any_eq u (seats b)) (bookings_tbl st).

Record Consistent (st : Store) : Prop := mkConsistent {
  bookings_pk : NoDup (map id (bookings_tbl st));
  one_holder : forall u, length (holders u st) <= 1;
  status_agrees : forall s, In s (seats_tbl st) ->
    (seat_status s = BOOKED <-> holders (seat_id s) st <> []);
  refs_exist : forall b u, In b (bookings_tbl st) -> holdsUnits b = true ->
    In u (seats b) -> In u (map seat_id (seats_tbl st))
}.

(** One operation of the system. The identifier [uuidv4()] hands to
    [createBooking] is one no stored booking carries. *)
Inductive step (st st' : Store) : Prop :=
| step_createShow pg parseDate showId seatUuid name start_time totalSeats
    r evs :
    run (createShow pg parseDate showId seatUuid name start_time totalSeats)
      st = (r, st', evs) ->
    step st st'
| step_createBooking pg bookingId now showId seatNumbers userId r evs :
    hasBooking bookingId st = false ->
    run (createBooking pg bookingId now showId seatNumbers userId) st
      = (r, st', evs) ->
    step st st'
| step_expireOne pg itemFaults txNow bookingId r evs :
    run (expireOne pg itemFaults txNow bookingId) st = (r, st', evs) ->
    step st st'
| step_cycle pg itemFaults expireMinutes now txNow lockFree r evs :
    run (processExpiryCycle pg itemFaults expireMinutes now txNow lockFree)
      st = (r, st', evs) ->
    step st st'.

Inductive reachable : Store -> Prop :=
| reach_empty : reachable emptyStore
| reach_step st st' : reachable st -> step st st' -> reachable st'.

(** Statements that write to the store or make writes durable. *)
Definition isUpdate (e : Event) : bool :=
  match e with
  | EvStmt (SExpireBooking _) | EvStmt (SFreeSeats _)
  | EvStmt (SMarkSeatsBooked _) | EvStmt (SMarkBookingFailed _)
  | EvStmt (SInsertBooking _ _ _ _) | EvStmt SCommit => true
  | _ => false
  end.

(** Every row of the units listed in [X] is free. *)
Definition freeIn (X : list uuid) (st : Store) : Prop :=
  forall s, In s (seats_tbl st) -> In (seat_id s) X ->
    seat_status s = AVAILABLE.

(** Handles on lease were all handed out by the pool. *)
Definition poolOk (w : World) : Prop :=
  Forall (fun c => c < clients w) (leased w).

(** The lock queries among the events: the show and the labels each
    [SELECT ... FOR UPDATE] on seats was sent with. *)
Definition lockQueries (evs : list Event) : list (uuid * list jsstring) :=
  flat_map (fun e => match e with
                     | EvStmt (SLockSeats showId labels) => [(showId, labels)]
                     | _ => []
                     end) evs.

(** [st'] comes from [st] by committed expiry transactions. *)
Inductive expires (st : Store) : Store -> Prop :=
| expires_refl : expires st st
| expires_step st1 now bookingId :
    expires st st1 -> expires st (expireStore now bookingId st1).

(** The status changes the data model allows: none, or [PENDING] to a
    terminal status. *)
Definition allowed (s s' : BookingStatus) : Prop :=
  s = s' \/ (s = PENDING /\ (s' = CONFIRMED \/ s' = FAILED)).

Definition pendingOrFailed (st : Store) : Prop :=
  Forall (fun b => status b = PENDING \/ status b = FAILED)
         (bookings_tbl st).

(** How the status of every booking id may differ between two stores:
    a stored status stays or goes from [PENDING] to [FAILED]; an id not
    stored stays so or appears as [PENDING]. *)
Definition statusMoves (st st' : Store) : Prop :=
  forall i,
    match statusOf i st with
    | Some s => statusOf i st' = Some s \/
                (s = PENDING /\ statusOf i st' = Some FAILED)
    | None => statusOf i st' = None \/ statusOf i st' = Some PENDING
    end.

(** The statements among the events, in the order they were sent. *)
Definition sent (evs : list Event) : list Stmt :=
  flat_map (fun e => match e with EvStmt s => [s] | _ => [] end) evs.

(** How often a client was released. *)
Definition releases (evs : list Event) : nat :=
  length (filter (fun e => match e with EvRelease => true | _ => false end)
            evs).

(** [st'] comes from [st] by committed expiry transactions on bookings
    among [ids]. *)
Inductive expiresIn (ids : list uuid) (st : Store) : Store -> Prop :=
| expiresIn_refl : expiresIn ids st st
| expiresIn_step st1 now bookingId :
    expiresIn ids st st1 -> In bookingId ids ->
    expiresIn ids st (expireStore now bookingId st1).

(** * A show with three seats *)

Definition okPg : Pg := mkPg noFaults true.

Definition demoShow : uuid := lit "g".

Definition demoSeat (n : string) (v : SeatStatus) : SeatRow :=
  mkSeat (lit "s" ++ lit n) demoShow (lit n) v.

Definition demoStore : Store :=
  mkStore [mkShow demoShow (lit "Show") 5 3]
          [demoSeat "1" AVAILABLE; demoSeat "2" AVAILABLE;
           demoSeat "3" AVAILABLE]
          [].

(** The store after [createBooking] took seats 1 and 2 at time 10. *)
Definition demoHeld : Store :=
  snd (fst (run (createBooking okPg (lit "b1") 10 demoShow
                   [lit "1"; lit "2"] None) demoStore)).

(** The store after a second booking took seat 3 at time 11. *)
Definition demoTwoHeld : Store :=
  snd (fst (run (createBooking okPg (lit "b3") 11 demoShow [lit "3"] None)
              demoHeld)).

(** A connection that is lost while the worker handles booking [b1]:
    neither [BEGIN] nor [ROLLBACK] gets through. *)
Definition lostConnection : uuid -> faults :=
  fun bookingId s =>
    jsstring_eqb bookingId (lit "b1") &&
    match s with
    | SBegin | SRollback => true
    | _ => false
    end.

(** ** A show with 101 seats, each held by its own booking *)

Definition crowdShow : Store :=
  snd (fst (run (createShow okPg (fun _ => Some 5%Z) demoShow
                   (fun i => lit "s" ++ toString i)
                   (lit "Show") (lit "2025-01-01") 101) emptyStore)).

(** Booking [n] is made at time [n] for seat [n]. *)
Definition crowdStore : Store :=
  fold_left
    (fun st n =>
       snd (fst (run (createBooking okPg (lit "b" ++ toString n)
                        (Z.of_nat n) demoShow [toString n] None) st)))
    (seq 1 101) crowdShow.

(** Three minutes after the last of them. *)
Definition crowdNow : Z := 101 + 3 * microsPerMinute.

(** The crowded store after one expiry cycle. *)
Definition crowdAfter : Store :=
  snd (fst (run (processExpiryCycle okPg (fun _ => noFaults) 2 crowdNow
                   (fun _ => crowdNow) true) crowdStore)).

(** A request body naming seat 1 twice. *)
Definition repeatedSeatBody : JsValue :=
  JObject [("showId", JString demoShow);
           ("seatNumbers", JArray [JString (lit "1"); JString (lit " 1 ")])].

(** A request body whose second label is blank. *)
Definition blankSeatBody : JsValue :=
  JObject [("showId", JString demoShow);
           ("seatNumbers", JArray [JString (lit "1"); JString (lit "  ")])].


(** What the server says when it fails, and what the client writes for
    a parameter that is not a string, in the examples. *)
Definition demoPgMessage : Stmt -> jsstring :=
  fun _ => lit "Connection terminated unexpectedly".

Definition demoPrepareValue : JsValue -> jsstring :=
  fun _ => lit "true".

(** The three-seat store with seats 1 and 2 held, after an expiry cycle
    run three minutes later. *)
Definition demoExpired : Store :=
  snd (fst (run (processExpiryCycle okPg (fun _ => noFaults) 2 crowdNow
                   (fun _ => crowdNow) true) demoHeld)).

(** ... and after seat 1 was booked again. *)
Definition demoRebooked : Store :=
  snd (fst (run (createBooking okPg (lit "b4") crowdNow demoShow
                   [lit "1"] None) demoExpired)).

(** A store that refuses [BEGIN] while the worker handles booking
    [b1], and nothing else. *)
Definition refusedBegin : uuid -> faults :=
  fun bookingId s =>
    jsstring_eqb bookingId (lit "b1") &&
    match s with
    | SBegin => true
    | _ => false
    end.

(** * Properties *)

(** ** Strings and membership *)

Lemma jsstring_eqb_eq (a b : jsstring) : jsstring_eqb a b = true <-> a = b.
Proof.
  unfold jsstring_eqb. destruct (list_eq_dec N.eq_dec a b); split; congruence.
Qed.

Lemma jsstring_eqb_refl (a : jsstring) : jsstring_eqb a a = true.
Proof. apply jsstring_eqb_eq. reflexivity. Qed.

Lemma jsstring_eqb_neq (a b : jsstring) : jsstring_eqb a b = false <-> a <> b.
Proof.
  unfold jsstring_eqb. destruct (list_eq_dec N.eq_dec a b); split; congruence.
Qed.

Lemma any_eq_In (x : jsstring) (l : list jsstring) :
  any_eq x l = true <-> In x l.
Proof.
  unfold any_eq. rewrite existsb_exists. split.
  - intros [y [Hy E]]. apply jsstring_eqb_eq in E. now subst.
  - intros H. exists x. split; [assumption | apply jsstring_eqb_refl].
Qed.

Lemma any_eq_not_In (x : jsstring) (l : list jsstring) :
  any_eq x l = false <-> ~ In x l.
Proof.
  rewrite <- any_eq_In. destruct (any_eq x l); split; congruence.
Qed.

Lemma nodupb_NoDup (l : list jsstring) : nodupb l = true <-> NoDup l.
Proof.
  induction l as [|x r IH]; simpl.
  - split; [constructor | reflexivity].
  - rewrite andb_true_iff, negb_true_iff, any_eq_not_In, IH. split.
    + intros [H1 H2]. now constructor.
    + intros H. inversion H. now split.
Qed.

Lemma trimStart_head (s : jsstring) c r :
  trimStart s = c :: r -> isWhiteSpace c = false.
Proof.
  induction s as [|x s IH]; simpl; [discriminate|].
  destruct (isWhiteSpace x) eqn:E; [exact IH|].
  intros H. injection H as -> _. exact E.
Qed.

Lemma trimStart_suffix (s : jsstring) : exists p, s = p ++ trimStart s.
Proof.
  induction s as [|x s [p IH]]; simpl.
  - now exists [].
  - destruct (isWhiteSpace x).
    + exists (x :: p). simpl. now f_equal.
    + now exists [].
Qed.

(** [trim] leaves no white space at either end. *)
Lemma trim_trimmed (s : jsstring) : trimmed (trim s).
Proof.
  unfold trim, trimEnd. split.
  - intros c r H.
    destruct (trimStart_suffix (rev (trimStart s))) as [p Hp].
    apply (f_equal (@rev N)) in Hp.
    rewrite rev_involutive, rev_app_distr, H in Hp. simpl in Hp.
    now apply trimStart_head in Hp.
  - intros c r H.
    apply (f_equal (@rev N)) in H. rewrite rev_involutive, rev_app_distr in H.
    simpl in H. now apply trimStart_head in H.
Qed.

(** ** Running the services *)

Lemma released_gone (c : Client) (l : list Client) :
  existsb (Nat.eqb c) (filter (fun x => negb (Nat.eqb c x)) l) = false.
Proof.
  induction l as [|x l IH]; cbn; [reflexivity|].
  destruct (Nat.eqb c x) eqn:E; cbn; [exact IH|]. now rewrite E, IH.
Qed.

Ltac unfold_js :=
  cbv beta iota zeta delta
    [getClient poolConnect finally tryCatch bind query emit BEGIN ROLLBACK
     COMMIT lockSeats insertBooking markSeatsBooked dbQuery release log
     getWorking getCommitted putWorking putCommitted throw ret initWorld
     itemPg insertShow insertSeats tryAcquireAdvisoryLock
     releaseAdvisoryLock fetchCandidates].

Ltac norm := cbn; rewrite ?Nat.eqb_refl, ?released_gone; cbn.

Ltac done_run :=
  norm; let H := fresh "H" in intros H; inversion H; subst; cbn.

Ltac crush_refuses :=
  repeat match goal with
  | |- context [refuses ?p ?s] => destruct (refuses p s) eqn:?; norm
  | |- context [if ?f ?s then _ else _] => destruct (f s) eqn:?; norm
  | |- context [throwsOnDoubleRelease ?p] =>
      destruct (throwsOnDoubleRelease p) eqn:?; norm
  end.

Lemma updateSeats_nil (v : SeatStatus) (st : Store) :
  updateSeats [] v st = st.
Proof.
  unfold updateSeats. cbn. rewrite map_id. now destruct st.
Qed.

Lemma markFailed_fresh (bookingId : uuid) (st : Store) :
  hasBooking bookingId st = false -> markFailed bookingId st = st.
Proof.
  unfold hasBooking, markFailed. intros H.
  destruct st as [sh se bk]. cbn in *. f_equal.
  induction bk as [|b bk IH]; cbn in *; [reflexivity|].
  apply orb_false_iff in H as [H1 H2]. rewrite H1. f_equal. now apply IH.
Qed.

(** Every run of [createBooking] either throws, leaving the store as it
    was up to the clean-up statement, or commits the booking and the
    seat update together. *)
Lemma createBooking_spec pg bid now showId seatNumbers userId st r st' evs :
  run (createBooking pg bid now showId seatNumbers userId) st
    = (r, st', evs) ->
  let rows := selectSeats showId seatNumbers st in
  let b := mkBooking bid showId userId (map seat_id rows) PENDING now now in
  (exists e, r = Throw e /\ (st' = st \/ st' = markFailed bid st)) \/
  (hasBooking bid st = false /\
   length rows = length seatNumbers /\ find isTaken rows = None /\
   r = Ok b /\ st' = updateSeats (map seat_id rows) BOOKED
                       (insertBookingRow b st)).
Proof.
  intros H rows b. revert H. unfold run, createBooking.
  destruct (jsstring_eqb showId []).
  { cbn. intros H. inversion H; subst. left; eauto. }
  destruct (Nat.eqb (length seatNumbers) 0).
  { cbn. intros H. inversion H; subst. left; eauto. }
  unfold_js. cbn.
  destruct (refuses pg SConnect) eqn:E1; cbn.
  { done_run. left; eauto. }
  destruct (refuses pg SBegin) eqn:E2; cbn.
  { crush_refuses; done_run; left; eauto. }
  destruct (refuses pg (SLockSeats showId seatNumbers)) eqn:E3; cbn.
  { crush_refuses; done_run; left; eauto. }
  fold rows.
  destruct (Nat.eqb (length rows) (length seatNumbers)) eqn:E4; cbn.
  2:{ crush_refuses; done_run; left; eauto. }
  destruct (find isTaken rows) eqn:E5; cbn.
  { crush_refuses; done_run; left; eauto. }
  destruct (refuses pg (SInsertBooking _ _ _ _)) eqn:E6; cbn.
  { crush_refuses; done_run; left; eauto. }
  destruct (hasBooking bid st) eqn:E7; cbn.
  { crush_refuses; done_run; left; eauto. }
  destruct (refuses pg (SMarkSeatsBooked _)) eqn:E8; cbn.
  { crush_refuses; done_run; left; eauto. }
  destruct (refuses pg SCommit) eqn:E9; cbn.
  { crush_refuses; done_run; left; eauto. }
  done_run. right. apply Nat.eqb_eq in E4. auto 10.
Qed.

(** ** Seat selection *)

Lemma selectSeats_In showId labels st s :
  In s (selectSeats showId labels st) <->
  In s (seats_tbl st) /\ seat_show_id s = showId /\ In (seat_number s) labels.
Proof.
  unfold selectSeats. rewrite filter_In, andb_true_iff, jsstring_eqb_eq,
    any_eq_In. tauto.
Qed.

Lemma selectSeats_updateSeats showId labels ids v st :
  selectSeats showId labels (updateSeats ids v st) =
  map (fun s => if any_eq (seat_id s) ids then withStatus v s else s)
      (selectSeats showId labels st).
Proof.
  unfold selectSeats, updateSeats. cbn.
  induction (seats_tbl st) as [|s l IH]; cbn; [reflexivity|].
  rewrite IH.
  destruct (any_eq (seat_id s) ids) eqn:E; cbn;
    destruct (jsstring_eqb (seat_show_id s) showId
              && any_eq (seat_number s) labels); cbn; rewrite ?E;
    reflexivity.
Qed.

Lemma selectSeats_insertBookingRow showId labels b st :
  selectSeats showId labels (insertBookingRow b st) =
  selectSeats showId labels st.
Proof. reflexivity. Qed.

(** Under [UNIQUE (show_id, seat_number)] the selected rows carry
    pairwise different labels. *)
Lemma selectSeats_labels_NoDup showId labels st :
  NoDup (map seatKey (seats_tbl st)) ->
  NoDup (map seat_number (selectSeats showId labels st)).
Proof.
  unfold selectSeats.
  induction (seats_tbl st) as [|s l IH]; cbn; intros H; [constructor|].
  inversion H as [|k ks Hk Hr]; subst.
  destruct (jsstring_eqb (seat_show_id s) showId
            && any_eq (seat_number s) labels) eqn:E; cbn; [|now apply IH].
  constructor; [|now apply IH].
  intros Hin. apply in_map_iff in Hin as [s' [Hn Hs']].
  apply filter_In in Hs' as [Hs' Hp].
  apply andb_true_iff in E as [E _], Hp as [Hp _].
  apply jsstring_eqb_eq in E, Hp.
  apply Hk. apply in_map_iff. exists s'. split; [|assumption].
  unfold seatKey. congruence.
Qed.

(** When as many rows are selected as labels were asked for, every
    label asked for has its row. *)
Lemma selectSeats_all_found showId labels st :
  NoDup (map seatKey (seats_tbl st)) ->
  length (selectSeats showId labels st) = length labels ->
  forall l, In l labels ->
    exists s, In s (selectSeats showId labels st) /\ seat_number s = l.
Proof.
  intros Hu Hlen l Hl.
  assert (Hincl : incl labels (map seat_number (selectSeats showId labels st))).
  { apply NoDup_length_incl.
    - now apply selectSeats_labels_NoDup.
    - rewrite length_map. lia.
    - intros x Hx. apply in_map_iff in Hx as [s [<- Hs]].
      now apply selectSeats_In in Hs. }
  apply Hincl in Hl. apply in_map_iff in Hl as [s [E Hs]]. eauto.
Qed.

Lemma find_isTaken_None rows :
  find isTaken rows = None ->
  forall s, In s rows -> seat_status s = AVAILABLE.
Proof.
  intros H s Hs. pose proof (find_none _ _ H _ Hs) as E.
  unfold isTaken in E. now destruct (seat_status s).
Qed.

(** ** Reserve is all or nothing *)

(** C1. A call of [createBooking] that fails, whether with
    [SeatsDoNotExist], with [SeatTaken] or because the store refused a
    statement, leaves the store exactly as it was: no seat changes status
    and no booking row remains. A call that succeeds returns a [PENDING]
    booking that is stored, and every seat row the request selects is
    [BOOKED] and listed in the booking; with the schema's
    [UNIQUE (show_id, seat_number)] each label asked for has such a row. *)
Theorem createBooking_all_or_nothing
    pg bookingId now showId seatNumbers userId st r st' evs :
  hasBooking bookingId st = false ->
  run (createBooking pg bookingId now showId seatNumbers userId) st
    = (r, st', evs) ->
  (exists e, r = Throw e /\ st' = st) \/
  (exists b, r = Ok b /\ status b = PENDING /\ id b = bookingId /\
     In b (bookings_tbl st') /\
     let held := selectSeats showId seatNumbers st' in
     seats b = map seat_id held /\
     length held = length seatNumbers /\
     Forall (fun s => seat_status s = BOOKED) held /\
     (forall s, In s (selectSeats showId seatNumbers st) ->
        seat_status s = AVAILABLE) /\
     (NoDup (map seatKey (seats_tbl st)) ->
      forall l, In l seatNumbers ->
        exists s, In s held /\ seat_number s = l /\
                  seat_status s = BOOKED /\ In (seat_id s) (seats b))).
Proof.
  intros Hfresh Hrun.
  apply createBooking_spec in Hrun.
  destruct Hrun as [[e [-> [-> | ->]]] | (_ & Hlen & Hfind & -> & ->)].
  - left. eauto.
  - left. exists e. split; [reflexivity|]. now apply markFailed_fresh.
  - right. eexists. split; [reflexivity|].
    split; [reflexivity|]. split; [reflexivity|].
    split; [cbn; apply in_or_app; right; now left|].
    cbv zeta.
    rewrite selectSeats_updateSeats, selectSeats_insertBookingRow.
    set (rows := selectSeats showId seatNumbers st) in *.
    assert (Hmem : forall s, In s rows ->
              any_eq (seat_id s) (map seat_id rows) = true).
    { intros s Hs. apply any_eq_In. now apply in_map. }
    assert (Hall : Forall (fun s => seat_status s = BOOKED)
              (map (fun s => if any_eq (seat_id s) (map seat_id rows)
                             then withStatus BOOKED s else s) rows)).
    { apply Forall_forall. intros s' Hs'.
      apply in_map_iff in Hs' as [s [<- Hs]]. now rewrite Hmem. }
    split; [|split; [|split; [|split]]].
    + rewrite map_map. apply map_ext_in. intros s Hs.
      now destruct (any_eq (seat_id s) (map seat_id rows)).
    + now rewrite length_map.
    + exact Hall.
    + now apply find_isTaken_None.
    + intros Hu l Hl.
      destruct (selectSeats_all_found showId seatNumbers st Hu Hlen l Hl)
        as [s [Hs Hn]].
      exists (withStatus BOOKED s). repeat split.
      * apply in_map_iff. exists s. now rewrite Hmem.
      * exact Hn.
      * cbn. now apply in_map.
Qed.

(** What the lock phase decides when the store refuses nothing up to the
    rollback. *)
Lemma createBooking_lock_phase
    pg bid now showId seatNumbers userId st r st' evs :
  showId <> [] -> seatNumbers <> [] ->
  refuses pg SConnect = false -> refuses pg SBegin = false ->
  refuses pg (SLockSeats showId seatNumbers) = false ->
  refuses pg SRollback = false ->
  run (createBooking pg bid now showId seatNumbers userId) st
    = (r, st', evs) ->
  let rows := selectSeats showId seatNumbers st in
  (length rows <> length seatNumbers ->
     r = Throw SeatsDoNotExist /\ (st' = st \/ st' = markFailed bid st)) /\
  (length rows = length seatNumbers ->
     forall t, find isTaken rows = Some t ->
     r = Throw (SeatTaken (seat_number t)) /\
     (st' = st \/ st' = markFailed bid st)).
Proof.
  intros Hs Hn E1 E2 E3 E4 H rows. revert H. unfold run, createBooking.
  destruct showId as [|c s0]; [congruence|].
  destruct seatNumbers as [|l ls]; [congruence|].
  cbn [jsstring_eqb length Nat.eqb].
  replace (jsstring_eqb (c :: s0) []) with false
    by (symmetry; now apply jsstring_eqb_neq).
  unfold_js. cbn. rewrite E1. cbn. rewrite E2. cbn. rewrite E3. cbn.
  fold rows.
  destruct (Nat.eqb (length rows) (S (length ls))) eqn:E5; cbn.
  - apply Nat.eqb_eq in E5. split; [cbn in *; congruence|].
    intros _ t Ht. revert H. rewrite Ht. cbn. rewrite E4. cbn.
    crush_refuses; done_run; auto.
  - apply Nat.eqb_neq in E5. split; [|cbn in *; congruence].
    intros _. revert H. rewrite E4. cbn.
    crush_refuses; done_run; auto.
Qed.

Lemma find_isTaken_first pre t post :
  Forall (fun s => seat_status s = AVAILABLE) pre ->
  seat_status t <> AVAILABLE ->
  find isTaken (pre ++ t :: post) = Some t.
Proof.
  intros Hpre Ht. induction Hpre as [|s pre Hs _ IH]; cbn.
  - unfold isTaken. destruct (seat_status t); [congruence | reflexivity].
  - unfold isTaken at 1. now rewrite Hs.
Qed.

(** ** Unavailable seats *)

(** C7. When the lock query returns as many rows as labels were asked
    for and some locked seat is not [AVAILABLE], [createBooking] throws
    [SeatTaken] with the seat number of the first such row in the order
    the rows came back, and the transaction is rolled back: no seat row
    changes, and the store as a whole is unchanged when the generated
    booking id is a new one. (The store refuses none of the statements
    up to the rollback.) *)
Theorem createBooking_first_taken_seat
    pg bookingId now showId seatNumbers userId st pre taken post r st' evs :
  showId <> [] -> seatNumbers <> [] ->
  refuses pg SConnect = false -> refuses pg SBegin = false ->
  refuses pg (SLockSeats showId seatNumbers) = false ->
  refuses pg SRollback = false ->
  selectSeats showId seatNumbers st = pre ++ taken :: post ->
  length (pre ++ taken :: post) = length seatNumbers ->
  Forall (fun s => seat_status s = AVAILABLE) pre ->
  seat_status taken <> AVAILABLE ->
  run (createBooking pg bookingId now showId seatNumbers userId) st
    = (r, st', evs) ->
  r = Throw (SeatTaken (seat_number taken)) /\
  seats_tbl st' = seats_tbl st /\
  (hasBooking bookingId st = false -> st' = st).
Proof.
  intros Hs Hn E1 E2 E3 E4 Hrows Hlen Hpre Ht Hrun.
  destruct (createBooking_lock_phase _ _ _ _ _ _ _ _ _ _
              Hs Hn E1 E2 E3 E4 Hrun) as [_ H].
  rewrite Hrows in H.
  destruct (H Hlen taken (find_isTaken_first _ _ _ Hpre Ht)) as [-> Hst].
  split; [reflexivity|].
  destruct Hst as [-> | ->].
  - auto.
  - split; [reflexivity|]. intros Hf. now apply markFailed_fresh.
Qed.

(** ** Missing seats and repeated labels *)

(** C6, at the request [["1", "1"]] for a show whose seat 1 exists and
    is free: one row is locked for two labels, so [createBooking] throws
    [SeatsDoNotExist] and leaves the store as it was, although every
    label asked for has its seat. *)
Lemma createBooking_repeated_label_reported_missing :
  let '(r, st', _) :=
    run (createBooking okPg (lit "b2") 11 demoShow [lit "1"; lit "1"] None)
      demoStore in
  r = Throw SeatsDoNotExist /\ st' = demoStore /\
  length (selectSeats demoShow [lit "1"; lit "1"] demoStore) = 1 /\
  forall l, In l [lit "1"; lit "1"] ->
    exists s, In s (seats_tbl demoStore) /\ seat_show_id s = demoShow /\
              seat_number s = l.
Proof.
  vm_compute. repeat split.
  intros l [<- | [<- | []]]; eexists; (split; [left; reflexivity|]);
    split; reflexivity.
Qed.

(** ** One expiry transaction *)

Lemma selectBooking_In bookingId st b :
  In b (selectBooking bookingId st) <->
  In b (bookings_tbl st) /\ id b = bookingId.
Proof.
  unfold selectBooking. now rewrite filter_In, jsstring_eqb_eq.
Qed.

Lemma selectBooking_head bookingId st b rest :
  selectBooking bookingId st = b :: rest ->
  In b (bookings_tbl st) /\ id b = bookingId.
Proof.
  intros H. apply selectBooking_In. rewrite H. now left.
Qed.

(** Whatever the store refuses, the loop body either leaves the
    committed store alone or commits the whole expiry of the booking. *)
Lemma expireOne_committed pg itf txNow i w r w' :
  expireOne pg itf txNow i w = (r, w') ->
  committed w' = committed w \/
  committed w' = expireStore (txNow i) i (committed w).
Proof.
  unfold expireOne, expireStore. unfold_js. cbn.
  destruct (itf i SConnect) eqn:E1; cbn.
  { done_run; auto. }
  destruct (itf i SBegin) eqn:E2; cbn.
  { crush_refuses; done_run; auto. }
  destruct (itf i (SLockBooking i)) eqn:E3; cbn.
  { crush_refuses; done_run; auto. }
  destruct (selectBooking i (committed w)) as [|b rest] eqn:Es; cbn.
  { crush_refuses; done_run; auto. }
  destruct (BookingStatus_eqb (status b) PENDING) eqn:Ep; cbn.
  2:{ crush_refuses; done_run; auto. }
  destruct (itf i (SExpireBooking i)) eqn:E4; cbn.
  { crush_refuses; done_run; auto. }
  destruct (seats b) as [|u us] eqn:Eseats; cbn.
  - destruct (itf i SCommit) eqn:E5; cbn.
    { crush_refuses; done_run; auto. }
    done_run. right. now rewrite updateSeats_nil.
  - destruct (itf i (SFreeSeats (u :: us))) eqn:E6; cbn.
    { crush_refuses; done_run; auto. }
    destruct (itf i SCommit) eqn:E5; cbn.
    { crush_refuses; done_run; auto. }
    done_run. right. reflexivity.
Qed.

(** C8. When the locked booking row does not exist, or exists with a
    status other than [PENDING], the expiry transaction on that id leaves
    the store unchanged, whatever the store refuses: it sends no update
    and no commit. *)
Theorem expireOne_skip_leaves_store
    pg itemFaults txNow bookingId st r st' evs :
  lookupBooking bookingId st = None \/
  (exists b, lookupBooking bookingId st = Some b /\ status b <> PENDING) ->
  run (expireOne pg itemFaults txNow bookingId) st = (r, st', evs) ->
  st' = st /\ existsb isUpdate evs = false.
Proof.
  unfold lookupBooking, run. intros Hskip.
  unfold expireOne. unfold_js. cbn.
  destruct (itemFaults bookingId SConnect) eqn:E1; cbn.
  { done_run; auto. }
  destruct (itemFaults bookingId SBegin) eqn:E2; cbn.
  { crush_refuses; done_run; auto. }
  destruct (itemFaults bookingId (SLockBooking bookingId)) eqn:E3; cbn.
  { crush_refuses; done_run; auto. }
  destruct (selectBooking bookingId st) as [|b rest] eqn:Es; cbn.
  { crush_refuses; done_run; auto. }
  destruct Hskip as [Hn | [b' [Hb Hp]]]; [discriminate|].
  cbn in Hb. injection Hb as <-.
  destruct (status b) eqn:Est; [congruence| |]; cbn;
    crush_refuses; done_run; auto.
Qed.

Lemma selectBooking_markExpired_other i j now st :
  j <> i -> selectBooking j (markExpired i now st) = selectBooking j st.
Proof.
  intros Hji. unfold selectBooking, markExpired. cbn.
  induction (bookings_tbl st) as [|b l IH]; cbn; [reflexivity|].
  rewrite IH. destruct (jsstring_eqb (id b) i) eqn:E; [|reflexivity].
  apply jsstring_eqb_eq in E. cbn.
  replace (jsstring_eqb (id b) j) with false; [reflexivity|].
  symmetry. apply jsstring_eqb_neq. congruence.
Qed.

Lemma selectBooking_markExpired_same i now st :
  selectBooking i (markExpired i now st) =
  map (withBookingStatus FAILED now) (selectBooking i st).
Proof.
  unfold selectBooking, markExpired. cbn.
  induction (bookings_tbl st) as [|b l IH]; cbn; [reflexivity|].
  rewrite IH. destruct (jsstring_eqb (id b) i) eqn:E; cbn; rewrite E;
    reflexivity.
Qed.

Lemma selectBooking_expireStore_other i j now st :
  j <> i -> selectBooking j (expireStore now i st) = selectBooking j st.
Proof.
  intros Hji. unfold expireStore.
  destruct (selectBooking i st) as [|b rest]; [reflexivity|].
  destruct (BookingStatus_eqb (status b) PENDING); [|reflexivity].
  unfold selectBooking at 1. cbn [bookings_tbl updateSeats].
  now apply selectBooking_markExpired_other.
Qed.

Lemma selectBooking_itemStore_other itf txNow i j st :
  j <> i -> selectBooking j (itemStore itf txNow st i) = selectBooking j st.
Proof.
  intros Hji. unfold itemStore.
  destruct (selectBooking i st) as [|b rest]; [reflexivity|].
  destruct (txRefused (itf i) b); [reflexivity|].
  now apply selectBooking_expireStore_other.
Qed.

Lemma expireStore_pending i now st b rest :
  selectBooking i st = b :: rest -> status b = PENDING ->
  expireStore now i st = updateSeats (seats b) AVAILABLE (markExpired i now st).
Proof.
  intros Hs Hp. unfold expireStore. now rewrite Hs, Hp.
Qed.

Lemma lookupBooking_expireStore i now st b :
  lookupBooking i st = Some b -> status b = PENDING ->
  lookupBooking i (expireStore now i st)
    = Some (withBookingStatus FAILED now b).
Proof.
  unfold lookupBooking. intros Hl Hp.
  destruct (selectBooking i st) as [|b' rest] eqn:Es; [discriminate|].
  injection Hl as ->.
  rewrite (expireStore_pending _ _ _ _ _ Es Hp).
  unfold selectBooking at 1. cbn [bookings_tbl updateSeats].
  fold (selectBooking i (markExpired i now st)).
  now rewrite selectBooking_markExpired_same, Es.
Qed.

Lemma freeIn_updateSeats X ids st :
  freeIn X st -> freeIn X (updateSeats ids AVAILABLE st).
Proof.
  unfold freeIn, updateSeats. cbn. intros H s' Hs' HX.
  apply in_map_iff in Hs' as [s [<- Hs]].
  destruct (any_eq (seat_id s) ids); [reflexivity | now apply H].
Qed.

Lemma freeIn_expireStore X i now st :
  freeIn X st -> freeIn X (expireStore now i st).
Proof.
  intros H. unfold expireStore.
  destruct (selectBooking i st) as [|b rest]; [assumption|].
  destruct (BookingStatus_eqb (status b) PENDING); [|assumption].
  apply freeIn_updateSeats. exact H.
Qed.

Lemma freeIn_itemStore X itf txNow i st :
  freeIn X st -> freeIn X (itemStore itf txNow st i).
Proof.
  intros H. unfold itemStore.
  destruct (selectBooking i st) as [|b rest]; [assumption|].
  destruct (txRefused (itf i) b); [assumption|].
  now apply freeIn_expireStore.
Qed.

Lemma expireStore_frees i now st b :
  lookupBooking i st = Some b -> status b = PENDING ->
  freeIn (seats b) (expireStore now i st).
Proof.
  unfold lookupBooking. intros Hl Hp.
  destruct (selectBooking i st) as [|b' rest] eqn:Es; [discriminate|].
  injection Hl as ->.
  rewrite (expireStore_pending _ _ _ _ _ Es Hp).
  unfold freeIn, updateSeats. cbn. intros s' Hs' HX.
  apply in_map_iff in Hs' as [s [<- Hs]].
  destruct (any_eq (seat_id s) (seats b)) eqn:E; [reflexivity|].
  apply any_eq_not_In in E. cbn in HX. contradiction.
Qed.

(** The loop body on a candidate that is still [PENDING], when neither
    the connection nor the rollback is refused: it completes, the
    committed store is [itemStore], and a refused statement is logged. *)
Lemma expireOne_pending pg itf txNow i w b rest r w' :
  itf i SConnect = false -> itf i SRollback = false ->
  selectBooking i (committed w) = b :: rest -> status b = PENDING ->
  expireOne pg itf txNow i w = (r, w') ->
  r = Ok tt /\
  committed w' = itemStore itf txNow (committed w) i /\
  leased w' = filter (fun x => negb (Nat.eqb (clients w) x)) (leased w) /\
  clients w' = S (clients w) /\
  exists evs', events w' = events w ++ evs' /\
    (txRefused (itf i) b = true ->
       exists e, In (EvLog Err (FailedToExpire i e)) evs') /\
    (forall e, ~ In (EvLog Err (MainLoopError e)) evs').
Proof.
  intros E1 ER Es Ep.
  destruct (selectBooking_head _ _ _ _ Es) as [_ Hid].
  unfold itemStore, txRefused. rewrite Es, Hid.
  rewrite (expireStore_pending _ _ _ _ _ Es Ep).
  unfold expireOne. unfold_js. cbn. rewrite E1. cbn.
  destruct (itf i SBegin) eqn:E2; cbn.
  { rewrite ER. done_run. repeat split.
    repeat rewrite <- app_assoc. eexists. split; [reflexivity|]. cbn.
    split; [eauto 10|]. intros e. intuition discriminate. }
  destruct (itf i (SLockBooking i)) eqn:E3; cbn.
  { rewrite ER. done_run. repeat split.
    repeat rewrite <- app_assoc. eexists. split; [reflexivity|]. cbn.
    split; [eauto 10|]. intros e. intuition discriminate. }
  rewrite Es, Ep. cbn.
  destruct (itf i (SExpireBooking i)) eqn:E4; cbn.
  { rewrite ER. done_run. repeat split.
    repeat rewrite <- app_assoc. eexists. split; [reflexivity|]. cbn.
    split; [eauto 10|]. intros e. intuition discriminate. }
  destruct (seats b) as [|u us] eqn:Eseats; cbn.
  - destruct (itf i SCommit) eqn:E5; cbn.
    { rewrite ER. done_run. repeat split.
      repeat rewrite <- app_assoc. eexists. split; [reflexivity|]. cbn.
      split; [eauto 10|]. intros e. intuition discriminate. }
    done_run. repeat split.
    + now rewrite updateSeats_nil.
    + repeat rewrite <- app_assoc. eexists. split; [reflexivity|]. cbn.
      split; [discriminate|]. intros e. intuition discriminate.
  - destruct (itf i (SFreeSeats (u :: us))) eqn:E6; cbn.
    { rewrite ER. done_run. repeat split.
      repeat rewrite <- app_assoc. eexists. split; [reflexivity|]. cbn.
      split; [eauto 10|]. intros e. intuition discriminate. }
    destruct (itf i SCommit) eqn:E5; cbn.
    { rewrite ER. done_run. repeat split.
      repeat rewrite <- app_assoc. eexists. split; [reflexivity|]. cbn.
      split; [eauto 10|]. intros e. intuition discriminate. }
    done_run. repeat split.
    repeat rewrite <- app_assoc. eexists. split; [reflexivity|]. cbn.
    split; [discriminate|]. intros e. intuition discriminate.
Qed.

(** ** The loop over the candidates *)

Lemma lookupBooking_itemStore_other itf txNow i j st :
  j <> i -> lookupBooking j (itemStore itf txNow st i) = lookupBooking j st.
Proof.
  intros H. unfold lookupBooking.
  now rewrite selectBooking_itemStore_other.
Qed.

Lemma fold_itemStore_other itf txNow ids j st :
  ~ In j ids ->
  selectBooking j (fold_left (itemStore itf txNow) ids st)
    = selectBooking j st.
Proof.
  revert st. induction ids as [|i ids IH]; intros st Hj; cbn; [reflexivity|].
  rewrite IH by (intros H; apply Hj; now right).
  apply selectBooking_itemStore_other. intros ->. apply Hj. now left.
Qed.

Lemma fold_itemStore_freeIn itf txNow X ids st :
  freeIn X st -> freeIn X (fold_left (itemStore itf txNow) ids st).
Proof.
  revert st. induction ids as [|i ids IH]; intros st H; cbn; [assumption|].
  apply IH. now apply freeIn_itemStore.
Qed.

Lemma itemStore_refused itf txNow i st b :
  lookupBooking i st = Some b -> txRefused (itf i) b = true ->
  itemStore itf txNow st i = st.
Proof.
  unfold lookupBooking, itemStore. intros Hl Hr.
  destruct (selectBooking i st) as [|b' rest]; [reflexivity|].
  injection Hl as ->. now rewrite Hr.
Qed.

Lemma itemStore_expired itf txNow i st b :
  lookupBooking i st = Some b -> txRefused (itf i) b = false ->
  itemStore itf txNow st i = expireStore (txNow i) i st.
Proof.
  unfold lookupBooking, itemStore. intros Hl Hr.
  destruct (selectBooking i st) as [|b' rest]; [discriminate|].
  injection Hl as ->. now rewrite Hr.
Qed.

(** A candidate whose transaction went through ends [FAILED] with its
    units free, whatever happens to the candidates around it. *)
Lemma fold_itemStore_expired itf txNow ids i st b :
  NoDup ids -> In i ids ->
  lookupBooking i st = Some b -> status b = PENDING ->
  txRefused (itf i) b = false ->
  let st' := fold_left (itemStore itf txNow) ids st in
  lookupBooking i st' = Some (withBookingStatus FAILED (txNow i) b) /\
  freeIn (seats b) st'.
Proof.
  revert st. induction ids as [|k ids IH]; intros st Hnd Hin Hl Hp Hr;
    [contradiction|].
  inversion Hnd as [|? ? Hk Hnd']; subst. cbn.
  destruct Hin as [-> | Hin].
  - rewrite (itemStore_expired _ _ _ _ _ Hl Hr). split.
    + unfold lookupBooking. rewrite fold_itemStore_other by assumption.
      now apply lookupBooking_expireStore.
    + apply fold_itemStore_freeIn. now apply expireStore_frees.
  - apply IH; try assumption.
    rewrite lookupBooking_itemStore_other; [assumption|].
    intros ->. contradiction.
Qed.

(** A candidate whose transaction was refused keeps its row. *)
Lemma fold_itemStore_refused itf txNow ids i st b :
  NoDup ids -> In i ids ->
  lookupBooking i st = Some b -> txRefused (itf i) b = true ->
  selectBooking i (fold_left (itemStore itf txNow) ids st)
    = selectBooking i st.
Proof.
  revert st. induction ids as [|k ids IH]; intros st Hnd Hin Hl Hr;
    [contradiction|].
  inversion Hnd as [|? ? Hk Hnd']; subst. cbn.
  destruct Hin as [-> | Hin].
  - rewrite (itemStore_refused _ _ _ _ _ Hl Hr).
    now apply fold_itemStore_other.
  - assert (Hne : i <> k) by (intros ->; contradiction).
    rewrite IH; try assumption.
    + now apply selectBooking_itemStore_other.
    + now rewrite lookupBooking_itemStore_other.
Qed.

Lemma filter_fresh_handle (n : nat) (l : list Client) :
  Forall (fun c => c < n) l -> filter (fun x => negb (Nat.eqb n x)) l = l.
Proof.
  induction 1 as [|c l Hc _ IH]; cbn; [reflexivity|].
  rewrite IH. replace (Nat.eqb n c) with false; [reflexivity|].
  symmetry. apply Nat.eqb_neq. lia.
Qed.

Lemma forOf_expireOne pg itf txNow ids w :
  poolOk w ->
  NoDup ids ->
  (forall i, In i ids -> itf i SConnect = false /\ itf i SRollback = false) ->
  (forall i, In i ids ->
     exists b, lookupBooking i (committed w) = Some b /\ status b = PENDING) ->
  exists w',
    forOf ids (expireOne pg itf txNow) w = (Ok tt, w') /\
    committed w' = fold_left (itemStore itf txNow) ids (committed w) /\
    leased w' = leased w /\ poolOk w' /\
    exists evs', events w' = events w ++ evs' /\
      (forall i b, In i ids -> lookupBooking i (committed w) = Some b ->
         txRefused (itf i) b = true ->
         exists e, In (EvLog Err (FailedToExpire i e)) evs') /\
      (forall e, ~ In (EvLog Err (MainLoopError e)) evs').
Proof.
  revert w. induction ids as [|i ids IH]; intros w Hpool Hnd Hok Hpend.
  - exists w. cbn. repeat split; [assumption|]. exists [].
    rewrite app_nil_r. repeat split; [intros ? ? [] | intros e []].
  - inversion Hnd as [|? ? Hi Hnd']; subst.
    destruct (Hok i (or_introl eq_refl)) as [E1 ER].
    destruct (Hpend i (or_introl eq_refl)) as [b [Hl Hp]].
    unfold lookupBooking in Hl.
    destruct (selectBooking i (committed w)) as [|b' rest] eqn:Es;
      [discriminate|]. injection Hl as ->.
    cbn [forOf]. unfold bind at 1.
    destruct (expireOne pg itf txNow i w) as [r1 w1] eqn:Eone.
    destruct (expireOne_pending _ _ _ _ _ _ _ _ _ E1 ER Es Hp Eone)
      as (-> & Hc1 & Hl1 & Hn1 & evs1 & Hev1 & Hlog1 & Hno1).
    rewrite (filter_fresh_handle _ _ Hpool) in Hl1.
    assert (Hpool1 : poolOk w1).
    { unfold poolOk in *. rewrite Hl1, Hn1.
      eapply Forall_impl; [|exact Hpool]. cbn. intros; lia. }
    assert (Hother : forall j, In j ids ->
              lookupBooking j (committed w1) = lookupBooking j (committed w)).
    { intros j Hj. rewrite Hc1. apply lookupBooking_itemStore_other.
      intros ->. contradiction. }
    destruct (IH w1 Hpool1 Hnd')
      as (w' & Hrun & Hc & Hl & Hp' & evs2 & Hev2 & Hlog2 & Hno2).
    + intros j Hj. apply Hok. now right.
    + intros j Hj. rewrite Hother by assumption. apply Hpend. now right.
    + exists w'. split; [exact Hrun|]. split; [|split; [|split]].
      * cbn. now rewrite Hc, Hc1.
      * congruence.
      * exact Hp'.
      * exists (evs1 ++ evs2). split; [now rewrite Hev2, Hev1, app_assoc|].
        split.
        -- intros j bj [<- | Hj] Hlj Hrj.
           ++ unfold lookupBooking in Hlj. rewrite Es in Hlj.
              injection Hlj as <-. destruct (Hlog1 Hrj) as [e He].
              exists e. apply in_or_app. now left.
           ++ rewrite <- Hother in Hlj by assumption.
              destruct (Hlog2 j bj Hj Hlj Hrj) as [e He].
              exists e. apply in_or_app. now right.
        -- intros e He. apply in_app_or in He as [He | He].
           ++ now apply (Hno1 e).
           ++ now apply (Hno2 e).
Qed.

(** ** The candidate query *)

Lemma insertByCreated_perm b l : Permutation (insertByCreated b l) (b :: l).
Proof.
  induction l as [|x l IH]; cbn; [reflexivity|].
  destruct (created_at b <? created_at x)%Z; [reflexivity|].
  rewrite IH. apply perm_swap.
Qed.

Lemma sortByCreated_perm l : Permutation (sortByCreated l) l.
Proof.
  induction l as [|x l IH]; cbn; [constructor|].
  rewrite insertByCreated_perm. now constructor.
Qed.

Lemma filter_keeps_ids_distinct (keep : Booking -> bool) (tbl : list Booking) :
  NoDup (map id tbl) -> NoDup (map id (filter keep tbl)).
Proof.
  intros Hpk. induction tbl as [|b tbl IH]; cbn; [constructor|].
  cbn in Hpk. inversion Hpk as [|? ? Hb Htbl]; subst.
  destruct (keep b); cbn; [|now apply IH].
  constructor; [|now apply IH].
  intros Hin. apply Hb. apply in_map_iff in Hin as [y [E Hy]].
  apply filter_In in Hy as [Hy _]. apply in_map_iff. eauto.
Qed.

Lemma In_firstn {A} (x : A) (n : nat) (l : list A) :
  In x (firstn n l) -> In x l.
Proof.
  revert l. induction n as [|n IH]; intros [|y l]; cbn; try tauto.
  intros [-> | H]; [now left | right; now apply IH].
Qed.

Lemma firstn_keeps_ids_distinct (n : nat) (tbl : list Booking) :
  NoDup (map id tbl) -> NoDup (map id (firstn n tbl)).
Proof.
  revert tbl. induction n as [|n IH]; intros [|x l] H; cbn; try constructor.
  - inversion H as [|? ? Hx Hl]; subst. intros Hin. apply Hx.
    apply in_map_iff in Hin as [y [E Hy]]. apply In_firstn in Hy.
    apply in_map_iff. eauto.
  - inversion H; subst. now apply IH.
Qed.

Lemma selectCandidates_In now d st c :
  In c (selectCandidates now d st) ->
  In c (bookings_tbl st) /\ isStale now d c = true.
Proof.
  unfold selectCandidates. intros H. apply In_firstn in H.
  apply (Permutation_in _ (sortByCreated_perm _)) in H.
  now apply filter_In in H.
Qed.

Lemma selectCandidates_NoDup now d st :
  NoDup (map id (bookings_tbl st)) ->
  NoDup (map id (selectCandidates now d st)).
Proof.
  intros H. unfold selectCandidates. apply firstn_keeps_ids_distinct.
  eapply Permutation_NoDup.
  - apply Permutation_map. symmetry. apply sortByCreated_perm.
  - now apply filter_keeps_ids_distinct.
Qed.

(** With no more stale bookings than the batch takes, the batch takes
    them all. *)
Lemma selectCandidates_all now d st c :
  length (filter (isStale now d) (bookings_tbl st)) <= batchLimit ->
  In c (bookings_tbl st) -> isStale now d c = true ->
  In c (selectCandidates now d st).
Proof.
  intros Hlen Hc Hs. unfold selectCandidates.
  rewrite firstn_all2.
  - apply (Permutation_in _ (Permutation_sym (sortByCreated_perm _))).
    apply filter_In. now split.
  - rewrite (Permutation_length (sortByCreated_perm _)). exact Hlen.
Qed.

Lemma isStale_pending now d c : isStale now d c = true -> status c = PENDING.
Proof.
  unfold isStale. intros H. apply andb_true_iff in H as [H _].
  now destruct (status c).
Qed.

Lemma selectBooking_absent bookingId st :
  ~ In bookingId (map id (bookings_tbl st)) -> selectBooking bookingId st = [].
Proof.
  unfold selectBooking.
  induction (bookings_tbl st) as [|b l IH]; cbn; intros H; [reflexivity|].
  destruct (jsstring_eqb (id b) bookingId) eqn:E.
  - apply jsstring_eqb_eq in E. exfalso. apply H. now left.
  - apply IH. intros Hin. apply H. now right.
Qed.

(** Under the primary key, looking a stored row up by its id finds it
    and nothing else. *)
Lemma selectBooking_pk st c :
  NoDup (map id (bookings_tbl st)) -> In c (bookings_tbl st) ->
  selectBooking (id c) st = [c].
Proof.
  destruct st as [sh se bk]. unfold selectBooking. cbn.
  induction bk as [|b l IH]; cbn; intros Hnd Hin; [contradiction|].
  inversion Hnd as [|? ? Hb Hl]; subst.
  destruct Hin as [-> | Hin].
  - rewrite jsstring_eqb_refl. f_equal.
    apply (selectBooking_absent (id c) (mkStore sh se l)). exact Hb.
  - destruct (jsstring_eqb (id b) (id c)) eqn:E; [|now apply IH].
    apply jsstring_eqb_eq in E. exfalso. apply Hb. rewrite E.
    now apply in_map.
Qed.

Lemma lookupBooking_pk st c :
  NoDup (map id (bookings_tbl st)) -> In c (bookings_tbl st) ->
  lookupBooking (id c) st = Some c.
Proof.
  intros Hnd Hin. unfold lookupBooking. now rewrite selectBooking_pk.
Qed.

(** ** A whole expiry cycle *)

#[local] Arguments selectCandidates : simpl never.

(** A cycle that gets the advisory lock and its candidates, and whose
    per-candidate connections and rollbacks are not refused, runs the
    loop body on every candidate. *)
Lemma processExpiryCycle_run pg itf d now txNow st r st' evs :
  let ids := map id (selectCandidates now d st) in
  refuses pg SConnect = false ->
  refuses pg STryAdvisoryLock = false ->
  refuses pg (SFetchCandidates d) = false ->
  NoDup ids ->
  (forall i, In i ids -> itf i SConnect = false /\ itf i SRollback = false) ->
  (forall i, In i ids ->
     exists b, lookupBooking i st = Some b /\ status b = PENDING) ->
  run (processExpiryCycle pg itf d now txNow true) st = (r, st', evs) ->
  r = Ok tt /\
  st' = fold_left (itemStore itf txNow) ids st /\
  (forall i b, In i ids -> lookupBooking i st = Some b ->
     txRefused (itf i) b = true ->
     exists e, In (EvLog Err (FailedToExpire i e)) evs) /\
  (forall e, ~ In (EvLog Err (MainLoopError e)) evs).
Proof.
  intros ids E1 E2 E3 Hnd Hok Hpend.
  unfold run, processExpiryCycle. unfold_js. cbn.
  rewrite E1. cbn. rewrite E2. cbn. rewrite E3. cbn. fold ids.
  destruct (Nat.eqb (length ids) 0) eqn:Elen.
  - apply Nat.eqb_eq, length_zero_iff_nil in Elen. rewrite Elen.
    cbn. crush_refuses; done_run;
      (split; [reflexivity|]); (split; [reflexivity|]);
      (split; [intros ? ? []|]); intros e He; cbn in He;
      intuition discriminate.
  - clear Elen.
    match goal with
    | |- context [forOf ids ?body ?w] =>
        assert (Hpool : poolOk w)
          by (repeat constructor);
        destruct (forOf_expireOne pg itf txNow ids w Hpool Hnd Hok Hpend)
          as (w' & Hrun & Hc & Hl & _ & evs' & Hev & Hlog & Hno)
    end.
    cbn in Hc, Hev, Hl.
    match goal with
    | |- context [forOf ids ?body ?w] =>
        change (forOf ids body w)
          with (forOf ids (expireOne pg itf txNow) w)
    end.
    rewrite Hrun. cbn.
    assert (Hin : forall x, In x (events w') ->
              x = EvStmt SConnect \/ x = EvStmt STryAdvisoryLock \/
              x = EvLog Info (StartingExpiryCycle d) \/
              x = EvStmt (SFetchCandidates d) \/
              x = EvLog Info (FoundPending (length ids)) \/ In x evs').
    { intros x Hx. rewrite Hev in Hx. cbn in Hx. intuition. }
    assert (Hsub : forall x, In x evs' -> In x (events w')).
    { intros x Hx. rewrite Hev. cbn. auto 10. }
    rewrite Hl. cbn.
    crush_refuses; done_run; (split; [reflexivity|]);
      (split; [exact Hc|]); split.
    all: try (intros j b Hj Hlk Hr; destruct (Hlog j b Hj Hlk Hr) as [e He];
              exists e; repeat (apply in_or_app; left); now apply Hsub).
    all: intros e He; repeat (apply in_app_or in He as [He | He]);
      try (apply Hin in He;
           destruct He as [He|[He|[He|[He|[He|He]]]]];
           try discriminate; now apply (Hno e));
      cbn in He; intuition discriminate.
Qed.

Lemma txRefused_noFaults (f : faults) b :
  (forall s, f s = false) -> txRefused f b = false.
Proof.
  intros H. unfold txRefused. rewrite !H.
  now destruct (Nat.ltb 0 (length (seats b))).
Qed.

Lemma candidates_pending now d st :
  NoDup (map id (bookings_tbl st)) ->
  forall i, In i (map id (selectCandidates now d st)) ->
    exists b, lookupBooking i st = Some b /\ status b = PENDING.
Proof.
  intros Hpk i Hi. apply in_map_iff in Hi as [c [<- Hc]].
  apply selectCandidates_In in Hc as [Hc Hs].
  exists c. split; [now apply lookupBooking_pk | now apply isStale_pending in Hs].
Qed.

(** ** Expiry of stale bookings *)

(** C3, as the code has it. The cycle takes a batch: the at most 100
    oldest bookings that are [PENDING] and older than the deadline. When
    the cycle gets the advisory lock and the store refuses nothing, every
    booking of the batch is [FAILED] afterwards and every seat row it
    lists is [AVAILABLE]; with at most 100 stale bookings the batch holds
    them all. A booking that is not [PENDING] when the cycle runs, a
    [CONFIRMED] one included, keeps its row whatever its age. *)
Theorem processExpiryCycle_expires_batch
    pg itemFaults d now txNow st r st' evs :
  NoDup (map id (bookings_tbl st)) ->
  (forall s, refuses pg s = false) ->
  (forall i s, itemFaults i s = false) ->
  run (processExpiryCycle pg itemFaults d now txNow true) st
    = (r, st', evs) ->
  (forall c, In c (selectCandidates now d st) ->
     lookupBooking (id c) st'
       = Some (withBookingStatus FAILED (txNow (id c)) c) /\
     freeIn (seats c) st') /\
  (length (filter (isStale now d) (bookings_tbl st)) <= batchLimit ->
   forall c, In c (bookings_tbl st) -> status c = PENDING ->
     (created_at c < now - d * microsPerMinute)%Z ->
     In c (selectCandidates now d st)) /\
  (forall b, In b (bookings_tbl st) -> status b <> PENDING ->
     In b (bookings_tbl st')).
Proof.
  intros Hpk Hpg Hitf Hrun.
  pose proof (selectCandidates_NoDup now d st Hpk) as Hnd.
  destruct (processExpiryCycle_run pg itemFaults d now txNow st r st' evs
              (Hpg _) (Hpg _) (Hpg _) Hnd
              (fun i _ => conj (Hitf i _) (Hitf i _))
              (candidates_pending now d st Hpk) Hrun)
    as (_ & -> & _ & _).
  split; [|split].
  - intros c Hc. pose proof (selectCandidates_In _ _ _ _ Hc) as [Hin Hs].
    apply fold_itemStore_expired.
    + exact Hnd.
    + now apply in_map.
    + now apply lookupBooking_pk.
    + now apply isStale_pending in Hs.
    + now apply txRefused_noFaults.
  - intros Hlen c Hc Hp Hage. apply selectCandidates_all; try assumption.
    unfold isStale. rewrite Hp. cbn. now apply Z.ltb_lt.
  - intros b Hb Hnp.
    assert (Hsel : selectBooking (id b)
                     (fold_left (itemStore itemFaults txNow)
                        (map id (selectCandidates now d st)) st) = [b]).
    { rewrite fold_itemStore_other; [now apply selectBooking_pk|].
      intros Hin. apply in_map_iff in Hin as [c [E Hc]].
      apply selectCandidates_In in Hc as [Hc Hs].
      apply isStale_pending in Hs.
      assert (c = b); [|congruence].
      pose proof (selectBooking_pk st b Hpk Hb) as Hb1.
      assert (Hcin : In c (selectBooking (id b) st))
        by (apply selectBooking_In; auto).
      rewrite Hb1 in Hcin. destruct Hcin as [<- | []]. reflexivity. }
    assert (Hin : In b (selectBooking (id b)
                     (fold_left (itemStore itemFaults txNow)
                        (map id (selectCandidates now d st)) st)))
      by (rewrite Hsel; now left).
    now apply selectBooking_In in Hin.
Qed.

(** C3 as stated fails on a backlog: of 101 bookings, all [PENDING] and
    older than the deadline of two minutes, one cycle expires the 100
    oldest; the youngest, made at time 101, is still [PENDING] after the
    cycle and its seat is still [BOOKED]. *)
Lemma processExpiryCycle_leaves_backlog :
  statusOf (lit "b101") crowdStore = Some PENDING /\
  option_map created_at (lookupBooking (lit "b101") crowdStore)
    = Some 101%Z /\
  (101 < crowdNow - 2 * microsPerMinute)%Z /\
  statusOf (lit "b101") crowdAfter = Some PENDING /\
  map seat_status (selectSeats demoShow [lit "101"] crowdAfter)
    = [BOOKED] /\
  length (filter (fun b => BookingStatus_eqb (status b) FAILED)
            (bookings_tbl crowdAfter)) = 100.
Proof.
  repeat split; vm_compute; reflexivity.
Qed.

(** ** A failed rollback ends the batch *)

(** C9, at a batch of two stale bookings where the connection is lost
    while the first is handled: [BEGIN] is refused, the [ROLLBACK] in the
    handler is refused too, the error leaves the loop and is logged by
    the outer handler, and the second booking is never looked at: it
    stays [PENDING] and its seat stays [BOOKED]. *)
Lemma processExpiryCycle_batch_ended_by_failed_rollback :
  let '(r, st', evs) :=
    run (processExpiryCycle okPg lostConnection 2 crowdNow
           (fun _ => crowdNow) true) demoTwoHeld in
  map id (selectCandidates crowdNow 2 demoTwoHeld) = [lit "b1"; lit "b3"] /\
  r = Ok tt /\ st' = demoTwoHeld /\
  statusOf (lit "b3") st' = Some PENDING /\
  map seat_status (selectSeats demoShow [lit "3"] st') = [BOOKED] /\
  In (EvLog Err (MainLoopError (StoreFailure SRollback))) evs /\
  ~ In (EvStmt (SLockBooking (lit "b3"))) evs.
Proof.
  vm_compute. repeat split; auto 20.
  intros H. repeat (destruct H as [H | H]; [discriminate|]). exact H.
Qed.

(** ** What the lock query is sent with *)

#[local] Arguments createBooking : simpl never.

Lemma lockQueries_app a b : lockQueries (a ++ b) = lockQueries a ++ lockQueries b.
Proof. apply flat_map_app. Qed.

(** [createBooking] sends at most one lock query, with the show and the
    labels it was called with, and none for an empty list of labels. *)
Lemma createBooking_lock_queries pg bid now showId seatNumbers userId w r w' :
  createBooking pg bid now showId seatNumbers userId w = (r, w') ->
  exists evs', events w' = events w ++ evs' /\
    (seatNumbers = [] -> evs' = [] /\ committed w' = committed w) /\
    forall q, In q (lockQueries evs') ->
      q = (showId, seatNumbers) /\ seatNumbers <> [].
Proof.
  unfold createBooking.
  destruct (jsstring_eqb showId []).
  { cbn. intros H. inversion H; subst. exists []. rewrite app_nil_r.
    split; [reflexivity|]. split; [auto|]. intros q []. }
  destruct seatNumbers as [|l ls].
  { cbn. intros H. inversion H; subst. exists []. rewrite app_nil_r.
    split; [reflexivity|]. split; [auto|]. intros q []. }
  cbn [length Nat.eqb]. unfold_js. cbn.
  assert (Hne : l :: ls <> []) by discriminate.
  destruct (refuses pg SConnect) eqn:E1; cbn.
  { done_run. repeat rewrite <- app_assoc. eexists. split; [reflexivity|].
    split; [discriminate|]. cbn. intros q Hq. intuition congruence. }
  destruct (refuses pg SBegin) eqn:E2; cbn.
  { crush_refuses; done_run; repeat rewrite <- app_assoc; eexists;
      (split; [reflexivity|]); (split; [discriminate|]); cbn; intros q Hq;
      intuition congruence. }
  destruct (refuses pg (SLockSeats showId (l :: ls))) eqn:E3; cbn.
  { crush_refuses; done_run; repeat rewrite <- app_assoc; eexists;
      (split; [reflexivity|]); (split; [discriminate|]); cbn; intros q Hq;
      intuition congruence. }
  destruct (Nat.eqb _ (S (length ls))) eqn:E4; cbn.
  2:{ crush_refuses; done_run; repeat rewrite <- app_assoc; eexists;
      (split; [reflexivity|]); (split; [discriminate|]); cbn; intros q Hq;
      intuition congruence. }
  destruct (find isTaken _) eqn:E5; cbn.
  { crush_refuses; done_run; repeat rewrite <- app_assoc; eexists;
      (split; [reflexivity|]); (split; [discriminate|]); cbn; intros q Hq;
      intuition congruence. }
  destruct (refuses pg (SInsertBooking _ _ _ _)) eqn:E6; cbn.
  { crush_refuses; done_run; repeat rewrite <- app_assoc; eexists;
      (split; [reflexivity|]); (split; [discriminate|]); cbn; intros q Hq;
      intuition congruence. }
  destruct (hasBooking bid (committed w)) eqn:E7; cbn.
  { crush_refuses; done_run; repeat rewrite <- app_assoc; eexists;
      (split; [reflexivity|]); (split; [discriminate|]); cbn; intros q Hq;
      intuition congruence. }
  destruct (refuses pg (SMarkSeatsBooked _)) eqn:E8; cbn.
  { crush_refuses; done_run; repeat rewrite <- app_assoc; eexists;
      (split; [reflexivity|]); (split; [discriminate|]); cbn; intros q Hq;
      intuition congruence. }
  destruct (refuses pg SCommit) eqn:E9; cbn.
  { crush_refuses; done_run; repeat rewrite <- app_assoc; eexists;
      (split; [reflexivity|]); (split; [discriminate|]); cbn; intros q Hq;
      intuition congruence. }
  done_run. repeat rewrite <- app_assoc. eexists. split; [reflexivity|].
  split; [discriminate|]. cbn. intros q Hq. intuition congruence.
Qed.

Lemma seatEntries_Some l ss :
  seatEntries l = Some ss ->
  l = map JString ss /\ Forall (fun s => trim s <> []) ss.
Proof.
  revert ss. induction l as [|v l IH]; cbn; intros ss H.
  - injection H as <-. split; constructor.
  - destruct v; try discriminate.
    destruct (Nat.eqb (length (trim s)) 0) eqn:E; [discriminate|].
    destruct (seatEntries l) as [ss'|]; [|discriminate].
    injection H as <-. destruct (IH ss' eq_refl) as [-> Hall].
    split; [reflexivity|]. constructor; [|assumption].
    intros Ht. rewrite Ht in E. discriminate.
Qed.

Lemma seatEntries_None l :
  seatEntries l = None ->
  ~ exists ss, l = map JString ss /\ Forall (fun s => trim s <> []) ss.
Proof.
  induction l as [|v l IH]; cbn; intros H (ss & E & F); [discriminate|].
  destruct ss as [|s ss]; [discriminate|]. cbn in E.
  injection E as -> ->. inversion F as [|? ? Hs Hss]; subst.
  destruct (Nat.eqb (length (trim s)) 0) eqn:El.
  - apply Nat.eqb_eq in El. apply Hs.
    now destruct (trim s).
  - destruct (seatEntries (map JString ss)) eqn:Er; [discriminate|].
    apply IH; [reflexivity|]. now exists ss.
Qed.

#[local] Arguments looksLikeValidation : simpl never.

(** C4, as the code has it. The controller trims every label, and
    unless the labels of the body are a non-empty array of strings each
    of which is non-empty once trimmed, it throws a 400 error before
    anything is sent to the store: the store is as it was and nothing
    was sent or logged. That covers the empty list, an entry that is not
    a string and a blank entry; the service rejects an empty list again.
    So each lock query is sent with a non-empty list of trimmed,
    non-empty labels: the labels of the request body, trimmed, in their
    order. Labels are not deduplicated: a label given twice is sent
    twice. *)
Theorem handleCreateBooking_lock_labels
    pg bookingId now pgMessage prepareValue body st r st' evs :
  run (handleCreateBooking pg bookingId now pgMessage prepareValue body) st
    = (r, st', evs) ->
  (forall showId labels, In (showId, labels) (lockQueries evs) ->
     labels <> [] /\ Forall trimmed labels /\
     Forall (fun l => l <> []) labels /\
     exists entries,
       getField "seatNumbers" body = JArray (map JString entries) /\
       labels = map trim entries /\
       getField "showId" body = JString showId) /\
  (~ (exists entries,
        entries <> [] /\
        getField "seatNumbers" body = JArray (map JString entries) /\
        Forall (fun s => trim s <> []) entries) ->
     (exists msg, r = Throw (ApiError 400 msg)) /\ st' = st /\ evs = []) /\
  (forall showId userId st0,
     run (createBooking pg bookingId now showId [] userId) st0
     = (Throw (if jsstring_eqb showId [] then ShowIdRequired
               else SeatNumbersEmpty), st0, [])).
Proof.
  intros Hrun. split; [|split].
  - revert Hrun. unfold run, handleCreateBooking.
    destruct (notAnObject body).
    { cbn. intros H; inversion H; subst. intros ? ? []. }
    destruct (getField "showId" body) as [| | | |[|c sid]| |] eqn:Eshow;
      try (cbn; intros H; inversion H; subst; intros ? ? []; fail).
    destruct (getField "seatNumbers" body) as [| | | | |[|x xs]|] eqn:Eseats;
      try (cbn; intros H; inversion H; subst; intros ? ? []; fail).
    destruct (seatEntries (x :: xs)) as [ss|] eqn:Eent;
      [|cbn; intros H; inversion H; subst; intros ? ? []].
    destruct (seatEntries_Some _ _ Eent) as [Hl Hall].
    cbv beta iota zeta delta [tryCatch bind log emit ret initWorld].
    cbn [committed working leased clients events app].
    match goal with
    | |- context [createBooking ?a ?b ?c ?d ?e ?f ?w] =>
        destruct (createBooking a b c d e f w) as [r1 w1] eqn:Ecb
    end.
    destruct (createBooking_lock_queries _ _ _ _ _ _ _ _ _ Ecb)
      as (evs' & Hev & _ & Hq).
    cbn in Hev.
    assert (Hfinal : forall showId labels,
              In (showId, labels) (lockQueries (events w1)) ->
              (showId, labels) = (c :: sid, map trim ss) /\
              map trim ss <> []).
    { intros s0 l0 Hin. rewrite Hev in Hin.
      change (EvLog Info CreatingBooking :: evs')
        with ([EvLog Info CreatingBooking] ++ evs') in Hin.
      rewrite lockQueries_app in Hin. cbn in Hin. now apply Hq. }
    assert (Hgoal : forall showId labels,
              In (showId, labels) (lockQueries (events w1)) ->
              labels <> [] /\ Forall trimmed labels /\
              Forall (fun l => l <> []) labels /\
              exists entries,
                JArray (x :: xs) = JArray (map JString entries) /\
                labels = map trim entries /\
                JString (c :: sid) = JString showId).
    { intros s0 l0 Hin. destruct (Hfinal s0 l0 Hin) as [E Hne].
      injection E as -> ->. split; [assumption|]. split; [|split].
      - apply Forall_forall. intros t Ht.
        apply in_map_iff in Ht as [e [<- _]]. apply trim_trimmed.
      - apply Forall_forall. intros t Ht.
        apply in_map_iff in Ht as [e [<- He]].
        rewrite Forall_forall in Hall. now apply Hall.
      - exists ss. now rewrite Hl. }
    destruct r1 as [bk|err];
      [|destruct (looksLikeValidation pgMessage err)];
      cbn; intros H; inversion H; subst.
    + exact Hgoal.
    + intros s0 l0 Hin. rewrite lockQueries_app in Hin.
      cbn in Hin. rewrite app_nil_r in Hin. now apply Hgoal.
    + intros s0 l0 Hin. rewrite lockQueries_app in Hin.
      cbn in Hin. rewrite app_nil_r in Hin. now apply Hgoal.
  - intros Hbad. revert Hrun. unfold run, handleCreateBooking.
    destruct (notAnObject body).
    { cbn. intros H; inversion H; subst. eauto. }
    destruct (getField "showId" body) as [| | | |[|c sid]| |];
      try (cbn; intros H; inversion H; subst; eauto; fail).
    destruct (getField "seatNumbers" body) as [| | | | |[|x xs]|];
      try (cbn; intros H; inversion H; subst; eauto; fail).
    destruct (seatEntries (x :: xs)) as [ss|] eqn:Eent;
      [|cbn; intros H; inversion H; subst; eauto].
    exfalso. apply Hbad. destruct (seatEntries_Some _ _ Eent) as [Hl Hall].
    exists ss. split; [|split].
    + intros ->. discriminate.
    + now rewrite Hl.
    + exact Hall.
  - intros showId userId st0. unfold run, createBooking.
    now destruct (jsstring_eqb showId []).
Qed.

(** C4 as stated fails on a repeated label: for the body
    [{showId, seatNumbers: ["1", " 1 "]}] the lock query is sent with
    the labels ["1"; "1"]. *)
Lemma handleCreateBooking_keeps_repeated_labels :
  lockQueries
    (snd (run (handleCreateBooking okPg (lit "b2") 11 demoPgMessage
                 demoPrepareValue repeatedSeatBody)
            demoStore))
  = [(demoShow, [lit "1"; lit "1"])] /\
  ~ NoDup [lit "1"; lit "1"].
Proof.
  split; [vm_compute; reflexivity|].
  intros H. inversion H as [|? ? Hin _]. apply Hin. now left.
Qed.

(** ** What each operation commits *)

Lemma expireOne_run pg itf txNow i st r st' evs :
  run (expireOne pg itf txNow i) st = (r, st', evs) ->
  st' = st \/ st' = expireStore (txNow i) i st.
Proof.
  unfold run. destruct (expireOne pg itf txNow i (initWorld st)) as [r0 w] eqn:E.
  intros H. inversion H; subst.
  now apply expireOne_committed in E.
Qed.

Lemma forOf_expireOne_committed pg itf txNow ids w r w' :
  forOf ids (expireOne pg itf txNow) w = (r, w') ->
  expires (committed w) (committed w').
Proof.
  revert w. induction ids as [|i ids IH]; intros w; cbn.
  - intros H. inversion H; subst. constructor.
  - unfold bind at 1.
    destruct (expireOne pg itf txNow i w) as [r1 w1] eqn:E1.
    pose proof (expireOne_committed _ _ _ _ _ _ _ E1) as Hc.
    assert (Hstep : expires (committed w) (committed w1)).
    { destruct Hc as [-> | ->]; repeat constructor. }
    destruct r1.
    + intros H. apply IH in H. clear - Hstep H.
      induction H; [assumption | now constructor].
    + intros H. inversion H; subst. exact Hstep.
Qed.

Lemma processExpiryCycle_committed pg itf d now txNow lockFree st r st' evs :
  run (processExpiryCycle pg itf d now txNow lockFree) st = (r, st', evs) ->
  expires st st'.
Proof.
  unfold run, processExpiryCycle. unfold_js. cbn.
  destruct (refuses pg SConnect) eqn:E1; cbn.
  { done_run. constructor. }
  destruct (refuses pg STryAdvisoryLock) eqn:E2; cbn.
  { crush_refuses; done_run; constructor. }
  destruct lockFree; cbn.
  2:{ crush_refuses; done_run; constructor. }
  destruct (refuses pg (SFetchCandidates d)) eqn:E3; cbn.
  { crush_refuses; done_run; constructor. }
  destruct (Nat.eqb _ 0) eqn:E4; cbn.
  { crush_refuses; done_run; constructor. }
  match goal with
  | |- context [forOf ?ids ?body ?w] =>
      change (forOf ids body w) with (forOf ids (expireOne pg itf txNow) w);
      destruct (forOf ids (expireOne pg itf txNow) w) as [r1 w1] eqn:Eloop
  end.
  apply forOf_expireOne_committed in Eloop. cbn in Eloop.
  destruct r1; cbn; crush_refuses; done_run; exact Eloop.
Qed.

(** ** The holders of a unit *)

Lemma hasBooking_false bookingId st :
  hasBooking bookingId st = false -> ~ In bookingId (map id (bookings_tbl st)).
Proof.
  unfold hasBooking. intros H Hin. apply in_map_iff in Hin as [b [E Hb]].
  assert (existsb (fun b => jsstring_eqb (id b) bookingId) (bookings_tbl st)
          = true); [|congruence].
  apply existsb_exists. exists b. split; [assumption|].
  now apply jsstring_eqb_eq.
Qed.

Lemma at_most_one {A} (l : list A) (a b : A) :
  length l <= 1 -> In a l -> In b l -> a = b.
Proof.
  destruct l as [|x [|y l]]; cbn; intros Hlen Ha Hb; try contradiction.
  - destruct Ha as [<- | []], Hb as [<- | []]. reflexivity.
  - lia.
Qed.

Lemma filter_length_and {A} (p q : A -> bool) (l : list A) :
  length (filter (fun x => q x && p x) l) <= length (filter p l).
Proof.
  induction l as [|x l IH]; cbn; [lia|].
  destruct (q x), (p x); cbn; lia.
Qed.

Lemma holders_In u st b :
  In b (holders u st) <->
  In b (bookings_tbl st) /\ holdsUnits b = true /\ In u (seats b).
Proof.
  unfold holders. now rewrite filter_In, andb_true_iff, any_eq_In.
Qed.

Lemma pk_unique st a b :
  NoDup (map id (bookings_tbl st)) ->
  In a (bookings_tbl st) -> In b (bookings_tbl st) -> id a = id b -> a = b.
Proof.
  intros Hpk Ha Hb E.
  pose proof (selectBooking_pk st a Hpk Ha) as Hs.
  assert (Hin : In b (selectBooking (id a) st))
    by (apply selectBooking_In; auto).
  rewrite Hs in Hin. now destruct Hin as [<- | []].
Qed.

(** After [markExpired], the holders are the former holders other than
    the expired booking. *)
Lemma holders_markExpired u i now st :
  holders u (markExpired i now st) =
  filter (fun b => negb (jsstring_eqb (id b) i)
                   && (holdsUnits b && any_eq u (seats b)))
         (bookings_tbl st).
Proof.
  unfold holders, markExpired. cbn.
  induction (bookings_tbl st) as [|b l IH]; cbn; [reflexivity|].
  rewrite IH. destruct (jsstring_eqb (id b) i); reflexivity.
Qed.

Lemma seat_ids_updateSeats ids v st :
  map seat_id (seats_tbl (updateSeats ids v st)) = map seat_id (seats_tbl st).
Proof.
  unfold updateSeats. cbn. rewrite map_map. apply map_ext.
  intros s. now destruct (any_eq (seat_id s) ids).
Qed.

(** ** The invariant is kept *)

Lemma Consistent_expireStore now i st :
  Consistent st -> Consistent (expireStore now i st).
Proof.
  intros [Hpk Hone Hagree Hrefs]. unfold expireStore.
  destruct (selectBooking i st) as [|c rest] eqn:Es; [now constructor|].
  destruct (BookingStatus_eqb (status c) PENDING) eqn:Ep; [|now constructor].
  destruct (selectBooking_head _ _ _ _ Es) as [Hc Hid].
  assert (Hhold : holdsUnits c = true).
  { unfold holdsUnits. now destruct (status c). }
  assert (Hholders : forall u,
            holders u (updateSeats (seats c) AVAILABLE (markExpired i now st))
            = filter (fun b => negb (jsstring_eqb (id b) i)
                               && (holdsUnits b && any_eq u (seats b)))
                     (bookings_tbl st)).
  { intros u. apply holders_markExpired. }
  constructor.
  - cbn. rewrite map_map. cbn.
    erewrite map_ext; [exact Hpk|]. intros b. cbn.
    now destruct (jsstring_eqb (id b) i).
  - intros u. rewrite Hholders.
    etransitivity; [apply filter_length_and | apply Hone].
  - intros s' Hs'. rewrite Hholders. cbn in Hs'.
    apply in_map_iff in Hs' as [s [<- Hs]].
    destruct (any_eq (seat_id s) (seats c)) eqn:Ein; cbn.
    + split; [discriminate|]. intros Hne. exfalso. apply Hne.
      destruct (filter _ (bookings_tbl st)) as [|b l] eqn:Ef; [reflexivity|].
      assert (Hb : In b (filter
                (fun b => negb (jsstring_eqb (id b) i)
                          && (holdsUnits b && any_eq (seat_id s) (seats b)))
                (bookings_tbl st))) by (rewrite Ef; now left).
      apply filter_In in Hb as [Hb Hq].
      apply andb_true_iff in Hq as [Hq1 Hq2].
      assert (b = c).
      { apply (at_most_one (holders (seat_id s) st)); [apply Hone| |].
        - unfold holders. apply filter_In. now split.
        - apply holders_In. split; [assumption|]. split; [assumption|].
          now apply any_eq_In. }
      subst b. rewrite Hid, jsstring_eqb_refl in Hq1. discriminate.
    + rewrite (Hagree s Hs).
      replace (filter _ (bookings_tbl st)) with (holders (seat_id s) st);
        [reflexivity|].
      unfold holders. apply filter_ext_in. intros b Hb.
      destruct (jsstring_eqb (id b) i) eqn:Eb; [|reflexivity]. cbn.
      apply jsstring_eqb_eq in Eb.
      assert (b = c) by (apply (pk_unique st); congruence).
      subst b. rewrite Ein. apply andb_false_r.
  - intros b' u Hb' Hh Hu. rewrite seat_ids_updateSeats. cbn.
    cbn in Hb'. apply in_map_iff in Hb' as [b [<- Hb]].
    destruct (jsstring_eqb (id b) i); [discriminate|].
    now apply (Hrefs b).
Qed.

Lemma holders_reserve u ids b st :
  holders u (updateSeats ids BOOKED (insertBookingRow b st)) =
  holders u st ++ (if holdsUnits b && any_eq u (seats b) then [b] else []).
Proof.
  unfold holders. cbn. rewrite filter_app. cbn.
  now destruct (holdsUnits b && any_eq u (seats b)).
Qed.

Lemma Consistent_reserve bid now showId labels userId st :
  Consistent st ->
  hasBooking bid st = false ->
  find isTaken (selectSeats showId labels st) = None ->
  let rows := selectSeats showId labels st in
  let b := mkBooking bid showId userId (map seat_id rows) PENDING now now in
  Consistent (updateSeats (map seat_id rows) BOOKED (insertBookingRow b st)).
Proof.
  intros [Hpk Hone Hagree Hrefs] Hfresh Hfree rows b.
  assert (Hrows : forall s, In s rows ->
            In s (seats_tbl st) /\ seat_status s = AVAILABLE).
  { intros s Hs. split.
    - now apply selectSeats_In in Hs.
    - now apply (find_isTaken_None rows). }
  assert (Hnone : forall u, In u (map seat_id rows) -> holders u st = []).
  { intros u Hu. apply in_map_iff in Hu as [s [<- Hs]].
    destruct (Hrows s Hs) as [Hin Hav].
    destruct (holders (seat_id s) st) eqn:Eh; [reflexivity|].
    assert (seat_status s = BOOKED); [|congruence].
    apply Hagree; [assumption|]. now rewrite Eh. }
  constructor.
  - cbn. rewrite map_app. cbn.
    apply (Permutation_NoDup (Permutation_cons_append _ _)).
    constructor; [now apply hasBooking_false | assumption].
  - intros u. rewrite holders_reserve.
    change (holdsUnits b && any_eq u (seats b))
      with (any_eq u (map seat_id rows)).
    destruct (any_eq u (map seat_id rows)) eqn:Eu.
    + apply any_eq_In in Eu. rewrite (Hnone u Eu). cbn. lia.
    + rewrite app_nil_r. apply Hone.
  - intros s' Hs'. rewrite holders_reserve. cbn in Hs'.
    apply in_map_iff in Hs' as [s [<- Hs]].
    change (holdsUnits b && any_eq ?u (seats b))
      with (any_eq u (map seat_id rows)).
    destruct (any_eq (seat_id s) (map seat_id rows)) eqn:Eu; cbn;
      rewrite ?Eu.
    + split; [|reflexivity]. intros _ H.
      apply app_eq_nil in H as [_ H]. discriminate.
    + rewrite app_nil_r. now apply Hagree.
  - intros b' u Hb' Hh Hu. rewrite seat_ids_updateSeats. cbn.
    cbn in Hb'. apply in_app_or in Hb' as [Hb' | [<- | []]].
    + now apply (Hrefs b').
    + cbn in Hu. apply in_map_iff in Hu as [s [<- Hs]].
      apply in_map. now apply Hrows.
Qed.

Lemma Consistent_addSeats shows' new st :
  Consistent st ->
  NoDup (map seat_id (seats_tbl st ++ new)) ->
  Forall (fun s => seat_status s = AVAILABLE) new ->
  Consistent (mkStore shows' (seats_tbl st ++ new) (bookings_tbl st)).
Proof.
  intros [Hpk Hone Hagree Hrefs] Hnd Hnew.
  constructor; cbn.
  - exact Hpk.
  - exact Hone.
  - intros s Hs. change (holders (seat_id s) (mkStore shows'
        (seats_tbl st ++ new) (bookings_tbl st)))
      with (holders (seat_id s) st).
    apply in_app_or in Hs as [Hs | Hs]; [now apply Hagree|].
    rewrite Forall_forall in Hnew. rewrite (Hnew s Hs).
    split; [discriminate|]. intros Hne. exfalso.
    destruct (holders (seat_id s) st) as [|b l] eqn:Eh; [now apply Hne|].
    assert (Hb : In b (holders (seat_id s) st)) by (rewrite Eh; now left).
    apply holders_In in Hb as (Hb & Hh & Hu).
    pose proof (Hrefs b _ Hb Hh Hu) as Hold.
    rewrite map_app in Hnd.
    apply NoDup_app_remove_l in Hnd as Hnd'.
    clear - Hnd Hold Hs.
    induction (map seat_id (seats_tbl st)) as [|x l IH]; [contradiction|].
    cbn in Hnd. inversion Hnd as [|? ? Hx Hl]; subst.
    destruct Hold as [-> | Hold]; [|now apply IH].
    apply Hx. apply in_or_app. right. now apply in_map.
  - intros b u Hb Hh Hu. rewrite map_app. apply in_or_app. left.
    now apply (Hrefs b).
Qed.

Lemma seatParams_nonempty showId seatUuid totalSeats :
  (totalSeats <=? 0)%Z = false ->
  Nat.ltb 0 (length (seatParams showId seatUuid totalSeats)) = true.
Proof.
  intros H. apply Z.leb_gt in H. unfold seatParams.
  rewrite length_map, length_seq. apply Nat.ltb_lt. lia.
Qed.

(** [createShow] either leaves the store as it was or adds the show and
    its seats, all [AVAILABLE], under fresh seat ids. *)
Lemma createShow_run pg parseDate showId seatUuid name start_time totalSeats
    st r st' evs :
  run (createShow pg parseDate showId seatUuid name start_time totalSeats) st
    = (r, st', evs) ->
  st' = st \/
  exists sh new,
    st' = mkStore (shows_tbl st ++ [sh]) (seats_tbl st ++ new)
            (bookings_tbl st) /\
    NoDup (map seat_id (seats_tbl st ++ new)) /\
    Forall (fun s => seat_status s = AVAILABLE) new.
Proof.
  unfold run, createShow.
  destruct (Nat.eqb (length name) 0).
  { cbn. intros H; inversion H; subst; auto. }
  destruct (if Nat.eqb (length start_time) 0 then None
            else parseDate start_time) as [start|].
  2:{ cbn. intros H; inversion H; subst; auto. }
  destruct (totalSeats <=? 0)%Z eqn:Et.
  { cbn. intros H; inversion H; subst; auto. }
  rewrite (seatParams_nonempty showId seatUuid totalSeats Et).
  unfold_js. cbn.
  destruct (refuses pg SConnect) eqn:E1; cbn.
  { done_run; auto. }
  destruct (refuses pg SBegin) eqn:E2; cbn.
  { crush_refuses; done_run; auto. }
  destruct (refuses pg (SInsertShow _ _ _ _)) eqn:E3; cbn.
  { crush_refuses; done_run; auto. }
  destruct (hasShow showId st) eqn:E4; cbn.
  { crush_refuses; done_run; auto. }
  destruct (refuses pg (SInsertSeats _)) eqn:E5; cbn.
  { crush_refuses; done_run; auto. }
  match goal with
  | |- context [seatsConstraints ?tbl && ?fk] =>
      destruct (seatsConstraints tbl) eqn:E6; cbn;
      [destruct fk eqn:E7; cbn|]
  end.
  2,3: crush_refuses; done_run; auto.
  destruct (refuses pg SCommit) eqn:E8; cbn.
  { crush_refuses; done_run; auto. }
  done_run. right. eexists. eexists. split; [reflexivity|].
  unfold seatsConstraints in E6. apply andb_true_iff in E6 as [E6 _].
  apply nodupb_NoDup in E6. split; [exact E6|].
  apply Forall_forall. intros s Hs. apply in_map_iff in Hs as [x [<- _]].
  reflexivity.
Qed.

Lemma Consistent_expires st st' :
  expires st st' -> Consistent st -> Consistent st'.
Proof.
  induction 1; intros H0; [assumption|].
  apply Consistent_expireStore. auto.
Qed.

Lemma Consistent_empty : Consistent emptyStore.
Proof.
  constructor; cbn; try constructor; try contradiction; auto.
Qed.

(** ** What a step does to the store *)

Lemma step_cases st st' :
  step st st' ->
  st' = st \/
  (exists sh new,
     st' = mkStore (shows_tbl st ++ [sh]) (seats_tbl st ++ new)
             (bookings_tbl st) /\
     NoDup (map seat_id (seats_tbl st ++ new)) /\
     Forall (fun s => seat_status s = AVAILABLE) new) \/
  (exists bid now showId labels userId,
     hasBooking bid st = false /\
     find isTaken (selectSeats showId labels st) = None /\
     st' = updateSeats (map seat_id (selectSeats showId labels st)) BOOKED
             (insertBookingRow
                (mkBooking bid showId userId
                   (map seat_id (selectSeats showId labels st))
                   PENDING now now) st)) \/
  expires st st'.
Proof.
  intros [pg parseDate showId seatUuid name start_time totalSeats r evs H
         | pg bid now showId labels userId r evs Hfresh H
         | pg itf txNow bid r evs H
         | pg itf d now txNow lockFree r evs H].
  - apply createShow_run in H. tauto.
  - apply createBooking_spec in H.
    destruct H as [[e [_ [-> | ->]]] | (_ & _ & Hfind & _ & ->)].
    + now left.
    + left. now apply markFailed_fresh.
    + right. right. left. exists bid, now, showId, labels, userId. auto.
  - apply expireOne_run in H. destruct H as [-> | ->]; [now left|].
    right. right. right. repeat constructor.
  - apply processExpiryCycle_committed in H. tauto.
Qed.

(** ** Status moves *)

Lemma statusMoves_refl st : statusMoves st st.
Proof. intros i. destruct (statusOf i st); auto. Qed.

Lemma statusOf_expireStore now j st i :
  match statusOf i st with
  | Some s => statusOf i (expireStore now j st) = Some s \/
              (s = PENDING /\ statusOf i (expireStore now j st) = Some FAILED)
  | None => statusOf i (expireStore now j st) = None
  end.
Proof.
  unfold statusOf.
  destruct (list_eq_dec N.eq_dec i j) as [-> | Hne].
  - destruct (lookupBooking j st) as [b|] eqn:El; cbn.
    + destruct (status b) eqn:Es.
      * right. split; [reflexivity|].
        now rewrite (lookupBooking_expireStore _ _ _ _ El Es).
      * left. unfold expireStore. unfold lookupBooking in El.
        destruct (selectBooking j st) as [|b' rest] eqn:E; [discriminate|].
        injection El as ->. rewrite Es. cbn. unfold lookupBooking.
        now rewrite E, <- Es.
      * left. unfold expireStore. unfold lookupBooking in El.
        destruct (selectBooking j st) as [|b' rest] eqn:E; [discriminate|].
        injection El as ->. rewrite Es. cbn. unfold lookupBooking.
        now rewrite E, <- Es.
    + unfold expireStore. unfold lookupBooking in El.
      destruct (selectBooking j st) as [|b' rest] eqn:E; [|discriminate].
      unfold lookupBooking. now rewrite E.
  - unfold lookupBooking.
    rewrite (selectBooking_expireStore_other _ _ now st Hne).
    destruct (hd_error (selectBooking i st)); cbn; auto.
Qed.

Lemma expires_status st st' :
  expires st st' ->
  forall i,
    match statusOf i st with
    | Some s => statusOf i st' = Some s \/
                (s = PENDING /\ statusOf i st' = Some FAILED)
    | None => statusOf i st' = None
    end.
Proof.
  induction 1 as [|st1 now j _ IH]; intros i.
  - destruct (statusOf i st); auto.
  - specialize (IH i).
    pose proof (statusOf_expireStore now j st1 i) as Hstep.
    destruct (statusOf i st) as [s|].
    + destruct IH as [IH | [-> IH]]; rewrite IH in Hstep.
      * exact Hstep.
      * right. split; [reflexivity|].
        destruct Hstep as [H | [H _]]; [exact H | discriminate].
    + now rewrite IH in Hstep.
Qed.

Lemma statusOf_reserve ids b st i :
  statusOf i (updateSeats ids BOOKED (insertBookingRow b st)) =
  match statusOf i st with
  | Some s => Some s
  | None => if jsstring_eqb (id b) i then Some (status b) else None
  end.
Proof.
  unfold statusOf, lookupBooking, selectBooking. cbn.
  rewrite filter_app. cbn.
  destruct (filter _ (bookings_tbl st)) as [|x l]; cbn; [|reflexivity].
  now destruct (jsstring_eqb (id b) i).
Qed.

Lemma step_statusMoves st st' : step st st' -> statusMoves st st'.
Proof.
  intros H. apply step_cases in H.
  destruct H as [-> | [(sh & new & -> & _) | [H | H]]].
  - apply statusMoves_refl.
  - intros i. change (statusOf i (mkStore (shows_tbl st ++ [sh])
        (seats_tbl st ++ new) (bookings_tbl st))) with (statusOf i st).
    destruct (statusOf i st); auto.
  - destruct H as (bid & now & showId & labels & userId & _ & _ & ->).
    intros i. rewrite statusOf_reserve. cbn.
    destruct (statusOf i st); [auto|].
    destruct (jsstring_eqb bid i); auto.
  - intros i. pose proof (expires_status _ _ H i) as Hi.
    destruct (statusOf i st); auto.
Qed.

Lemma pendingOrFailed_expireStore now i st :
  pendingOrFailed st -> pendingOrFailed (expireStore now i st).
Proof.
  unfold pendingOrFailed, expireStore. intros H.
  destruct (selectBooking i st) as [|b rest]; [assumption|].
  destruct (BookingStatus_eqb (status b) PENDING); [|assumption].
  cbn. apply Forall_forall. intros x Hx.
  apply in_map_iff in Hx as [y [<- Hy]].
  destruct (jsstring_eqb (id y) i); cbn; [now right|].
  rewrite Forall_forall in H. now apply H.
Qed.

Lemma pendingOrFailed_step st st' :
  step st st' -> pendingOrFailed st -> pendingOrFailed st'.
Proof.
  intros H Hst. apply step_cases in H.
  destruct H as [-> | [(sh & new & -> & _) | [H | H]]].
  - assumption.
  - exact Hst.
  - destruct H as (bid & now & showId & labels & userId & _ & _ & ->).
    unfold pendingOrFailed in *. cbn. apply Forall_app. split; [assumption|].
    constructor; [now left | constructor].
  - induction H; [assumption|]. now apply pendingOrFailed_expireStore.
Qed.

(** ** One reservation per unit *)

Lemma step_Consistent st st' : Consistent st -> step st st' -> Consistent st'.
Proof.
  intros Hc H. apply step_cases in H.
  destruct H as [-> | [(sh & new & -> & Hnd & Hnew) | [H | H]]].
  - assumption.
  - now apply Consistent_addSeats.
  - destruct H as (bid & now & showId & labels & userId & Hf & Hfind & ->).
    now apply Consistent_reserve.
  - now apply (Consistent_expires st).
Qed.

Lemma reachable_Consistent st : reachable st -> Consistent st.
Proof.
  induction 1 as [|st st' _ IH Hs]; [apply Consistent_empty|].
  now apply (step_Consistent st).
Qed.

(** C2. Every store the system can reach is consistent: no unit is held
    by more than one reservation that is [PENDING] or [CONFIRMED], and a
    seat is [BOOKED] exactly when such a reservation lists it. Every
    operation keeps a consistent store consistent: creating a show, a
    call of [createBooking] that commits, one that fails and runs its
    clean-up, one expiry transaction, and a whole expiry cycle, whatever
    statements the store refuses. *)
Theorem units_have_at_most_one_holder :
  (forall st, reachable st -> Consistent st) /\
  (forall st st', Consistent st -> step st st' -> Consistent st').
Proof.
  split; [exact reachable_Consistent | exact step_Consistent].
Qed.

(** ** Status only moves forward *)

(** C5. Across every operation each stored booking keeps its id, and its
    status either stays or goes from [PENDING] to a terminal status; a
    booking that is [CONFIRMED] or [FAILED] keeps that status. This
    covers the clean-up after a rolled back [createBooking] and the
    update of the expiry worker. *)
Theorem status_never_leaves_terminal st st' :
  step st st' ->
  forall i s, statusOf i st = Some s ->
    exists s', statusOf i st' = Some s' /\ allowed s s' /\
               (isTerminal s = true -> s' = s).
Proof.
  intros H i s Hs. pose proof (step_statusMoves _ _ H i) as Hm.
  rewrite Hs in Hm. destruct Hm as [Hm | [-> Hm]].
  - exists s. split; [assumption|]. split; [now left | reflexivity].
  - exists FAILED. split; [assumption|]. split.
    + right. split; [reflexivity | now right].
    + discriminate.
Qed.

(** ** Nothing confirms a booking *)

(** C10. In every store the system can reach every booking is [PENDING]
    or [FAILED]. No operation writes [CONFIRMED]: a booking that is
    [CONFIRMED] after an operation was so before it, a booking that
    appears is [PENDING], and the only change of a stored status is from
    [PENDING] to [FAILED]. *)
Theorem no_operation_confirms :
  (forall st, reachable st -> pendingOrFailed st) /\
  (forall st st', step st st' -> forall i,
     statusOf i st' = Some CONFIRMED -> statusOf i st = Some CONFIRMED) /\
  (forall st st', step st st' -> forall i,
     statusOf i st = None ->
     statusOf i st' = None \/ statusOf i st' = Some PENDING) /\
  (forall st st', step st st' -> forall i s s',
     statusOf i st = Some s -> statusOf i st' = Some s' -> s <> s' ->
     s = PENDING /\ s' = FAILED).
Proof.
  split; [|split; [|split]].
  - induction 1 as [|st st' _ IH Hs]; [constructor|].
    now apply (pendingOrFailed_step st).
  - intros st st' H i Hc. pose proof (step_statusMoves _ _ H i) as Hm.
    destruct (statusOf i st) as [s|].
    + destruct Hm as [Hm | [-> Hm]]; congruence.
    + destruct Hm; congruence.
  - intros st st' H i Hn. pose proof (step_statusMoves _ _ H i) as Hm.
    rewrite Hn in Hm. exact Hm.
  - intros st st' H i s s' Hs Hs' Hne.
    pose proof (step_statusMoves _ _ H i) as Hm. rewrite Hs in Hm.
    destruct Hm as [Hm | [-> Hm]]; split; congruence.
Qed.

(** * The theorems at work on the three-seat show *)

Lemma demoStore_reachable : reachable demoStore.
Proof.
  apply (reach_step emptyStore); [constructor|].
  apply (step_createShow emptyStore demoStore okPg (fun _ => Some 5%Z)
           demoShow (fun i => lit "s" ++ toString i) (lit "Show")
           (lit "2025-01-01") 3
           (Ok (mkShow demoShow (lit "Show") 5 3))
           (snd (run (createShow okPg (fun _ => Some 5%Z) demoShow
                        (fun i => lit "s" ++ toString i) (lit "Show")
                        (lit "2025-01-01") 3) emptyStore))).
  vm_compute. reflexivity.
Defined.

Lemma demoHeld_step : step demoStore demoHeld.
Proof.
  apply (step_createBooking demoStore demoHeld okPg (lit "b1") 10 demoShow
           [lit "1"; lit "2"] None
           (fst (fst (run (createBooking okPg (lit "b1") 10 demoShow
                             [lit "1"; lit "2"] None) demoStore)))
           (snd (run (createBooking okPg (lit "b1") 10 demoShow
                        [lit "1"; lit "2"] None) demoStore)));
    vm_compute; reflexivity.
Defined.

Lemma demoTwoHeld_step : step demoHeld demoTwoHeld.
Proof.
  apply (step_createBooking demoHeld demoTwoHeld okPg (lit "b3") 11 demoShow
           [lit "3"] None
           (fst (fst (run (createBooking okPg (lit "b3") 11 demoShow
                             [lit "3"] None) demoHeld)))
           (snd (run (createBooking okPg (lit "b3") 11 demoShow
                        [lit "3"] None) demoHeld)));
    vm_compute; reflexivity.
Defined.

(** Seats 1 and 2 of the three-seat show are booked in one piece. *)
Lemma createBooking_all_or_nothing_demo :
  let X := run (createBooking okPg (lit "b1") 10 demoShow
                  [lit "1"; lit "2"] None) demoStore in
  hasBooking (lit "b1") demoStore = false /\
  ((exists e, fst (fst X) = Throw e /\ snd (fst X) = demoStore) \/
   (exists b, fst (fst X) = Ok b /\ status b = PENDING /\
      id b = lit "b1" /\ In b (bookings_tbl (snd (fst X))) /\
      let held := selectSeats demoShow [lit "1"; lit "2"] (snd (fst X)) in
      seats b = map seat_id held /\
      length held = length [lit "1"; lit "2"] /\
      Forall (fun s => seat_status s = BOOKED) held /\
      (forall s, In s (selectSeats demoShow [lit "1"; lit "2"] demoStore) ->
         seat_status s = AVAILABLE) /\
      (NoDup (map seatKey (seats_tbl demoStore)) ->
       forall l, In l [lit "1"; lit "2"] ->
         exists s, In s held /\ seat_number s = l /\
                   seat_status s = BOOKED /\ In (seat_id s) (seats b)))).
Proof.
  intros X. split; [reflexivity|].
  apply (createBooking_all_or_nothing okPg (lit "b1") 10 demoShow
           [lit "1"; lit "2"] None demoStore (fst (fst X)) (snd (fst X))
           (snd X)); reflexivity.
Defined.

(** The scenario of C7: with seats 1 and 2 held, asking for seats 2 and 3
    fails with [SeatTaken "2"], and seat 3 stays [AVAILABLE]. *)
Lemma createBooking_first_taken_seat_demo :
  let X := run (createBooking okPg (lit "b2") 11 demoShow
                  [lit "2"; lit "3"] None) demoHeld in
  fst (fst X) = Throw (SeatTaken (lit "2")) /\
  seats_tbl (snd (fst X)) = seats_tbl demoHeld /\
  (hasBooking (lit "b2") demoHeld = false -> snd (fst X) = demoHeld) /\
  map seat_status (selectSeats demoShow [lit "3"] (snd (fst X)))
    = [AVAILABLE].
Proof.
  intros X.
  assert (H := createBooking_first_taken_seat okPg (lit "b2") 11 demoShow
              [lit "2"; lit "3"] None demoHeld []
              (demoSeat "2" BOOKED) [demoSeat "3" AVAILABLE]
              (fst (fst X)) (snd (fst X)) (snd X)).
  destruct H as (H1 & H2 & H3).
  1-2: discriminate.
  1-4: reflexivity.
  1-2: vm_compute; reflexivity.
  - constructor.
  - discriminate.
  - vm_compute; reflexivity.
  - split; [exact H1|]. split; [exact H2|]. split; [exact H3|].
    vm_compute; reflexivity.
Defined.

Lemma demoHeld_reachable : reachable demoHeld.
Proof.
  exact (reach_step _ _ demoStore_reachable demoHeld_step).
Defined.

Lemma demoExpired_reachable : reachable demoExpired.
Proof.
  apply (reach_step demoHeld demoExpired demoHeld_reachable).
  apply (step_cycle demoHeld demoExpired okPg (fun _ => noFaults) 2 crowdNow
           (fun _ => crowdNow) true
           (fst (fst (run (processExpiryCycle okPg (fun _ => noFaults) 2
                             crowdNow (fun _ => crowdNow) true) demoHeld)))
           (snd (run (processExpiryCycle okPg (fun _ => noFaults) 2
                        crowdNow (fun _ => crowdNow) true) demoHeld))).
  vm_compute; reflexivity.
Defined.

Lemma demoRebooked_step : step demoExpired demoRebooked.
Proof.
  apply (step_createBooking demoExpired demoRebooked okPg (lit "b4") crowdNow
           demoShow [lit "1"] None
           (fst (fst (run (createBooking okPg (lit "b4") crowdNow demoShow
                             [lit "1"] None) demoExpired)))
           (snd (run (createBooking okPg (lit "b4") crowdNow demoShow
                        [lit "1"] None) demoExpired)));
    vm_compute; reflexivity.
Defined.

(** An expiry transaction on an id no booking carries changes nothing. *)
Lemma expireOne_skip_leaves_store_demo :
  let X := run (expireOne okPg (fun _ => noFaults) (fun _ => crowdNow)
                  (lit "zz")) demoHeld in
  snd (fst X) = demoHeld /\ existsb isUpdate (snd X) = false.
Proof.
  intros X.
  apply (expireOne_skip_leaves_store okPg (fun _ => noFaults)
           (fun _ => crowdNow) (lit "zz") demoHeld
           (fst (fst X)) (snd (fst X)) (snd X)).
  - left. vm_compute. reflexivity.
  - vm_compute. reflexivity.
Defined.

(** Three minutes on, one cycle fails booking [b1] and frees its
    seats. *)
Lemma processExpiryCycle_expires_batch_demo :
  statusOf (lit "b1") demoExpired = Some FAILED /\
  freeIn [lit "s1"; lit "s2"] demoExpired.
Proof.
  destruct (processExpiryCycle_expires_batch okPg (fun _ => noFaults) 2
              crowdNow (fun _ => crowdNow) demoHeld
              (Ok tt) demoExpired
              (snd (run (processExpiryCycle okPg (fun _ => noFaults) 2
                           crowdNow (fun _ => crowdNow) true) demoHeld)))
    as [H _].
  - vm_compute. constructor; [intros [] | constructor].
  - intros s. reflexivity.
  - intros i s. reflexivity.
  - vm_compute. reflexivity.
  - destruct (H (mkBooking (lit "b1") demoShow None [lit "s1"; lit "s2"]
                   PENDING 10 10)) as [H1 H2].
    + vm_compute. left. reflexivity.
    + split; [|exact H2]. unfold statusOf. cbn [id] in H1. rewrite H1.
      reflexivity.
Defined.

(** The body [["1", " 1 "]] has its labels reach the lock query
    trimmed; the body [["1", "  "]] is turned down with a 400 error, the
    store untouched and nothing sent. *)
Lemma handleCreateBooking_lock_labels_demo :
  let X := run (handleCreateBooking okPg (lit "b2") 11 demoPgMessage
                  demoPrepareValue repeatedSeatBody) demoStore in
  let Y := run (handleCreateBooking okPg (lit "b2") 11 demoPgMessage
                  demoPrepareValue blankSeatBody) demoStore in
  (forall showId labels, In (showId, labels) (lockQueries (snd X)) ->
     labels <> [] /\ Forall trimmed labels /\
     Forall (fun l => l <> []) labels) /\
  (exists msg, fst (fst Y) = Throw (ApiError 400 msg)) /\
  snd (fst Y) = demoStore /\ snd Y = [].
Proof.
  intros X Y. split.
  - destruct (handleCreateBooking_lock_labels okPg (lit "b2") 11
                demoPgMessage demoPrepareValue repeatedSeatBody demoStore
                (fst (fst X)) (snd (fst X)) (snd X)) as [H _].
    + vm_compute. reflexivity.
    + intros showId labels Hin.
      destruct (H showId labels Hin) as (H1 & H2 & H3 & _).
      split; [exact H1|split; [exact H2|exact H3]].
  - destruct (handleCreateBooking_lock_labels okPg (lit "b2") 11
                demoPgMessage demoPrepareValue blankSeatBody demoStore
                (fst (fst Y)) (snd (fst Y)) (snd Y)) as (_ & H & _).
    + vm_compute. reflexivity.
    + apply H. intros (ss & _ & E & F).
      change (getField "seatNumbers" blankSeatBody)
        with (JArray [JString (lit "1"); JString (lit "  ")]) in E.
      destruct ss as [|a [|b [|c ss]]]; try discriminate.
      injection E as Ea Eb. subst a b.
      inversion F as [|? ? _ F2]. inversion F2 as [|? ? Hb _].
      apply Hb. vm_compute. reflexivity.
Defined.

(** Booking [b1], once [FAILED], stays so when its seat is booked
    again. *)
Lemma status_never_leaves_terminal_demo :
  exists s', statusOf (lit "b1") demoRebooked = Some s' /\
             allowed FAILED s' /\ (isTerminal FAILED = true -> s' = FAILED).
Proof.
  apply (status_never_leaves_terminal demoExpired demoRebooked
           demoRebooked_step (lit "b1") FAILED).
  vm_compute. reflexivity.
Defined.

(** The store with seats 1 and 2 held is consistent. *)
Lemma units_have_at_most_one_holder_demo : Consistent demoHeld.
Proof.
  exact (proj1 units_have_at_most_one_holder demoHeld demoHeld_reachable).
Defined.

(** Its one booking is [PENDING]. *)
Lemma no_operation_confirms_demo : pendingOrFailed demoHeld.
Proof.
  exact (proj1 no_operation_confirms demoHeld demoHeld_reachable).
Defined.

(** * Further properties of the services *)

(** ** Failures inside one expiry transaction *)

(** When the cycle has the advisory lock and its candidates, and for
    every candidate the connection and the rollback are not refused, a
    candidate whose transaction is refused at any statement keeps its
    row and has its failure logged, every other candidate of the batch
    is expired with its units freed, and the cycle ends without an error
    in the main loop. *)
Theorem expiry_failure_isolated_when_rollback_succeeds
    pg itemFaults d now txNow st r st' evs :
  NoDup (map id (bookings_tbl st)) ->
  refuses pg SConnect = false ->
  refuses pg STryAdvisoryLock = false ->
  refuses pg (SFetchCandidates d) = false ->
  (forall c, In c (selectCandidates now d st) ->
     itemFaults (id c) SConnect = false /\
     itemFaults (id c) SRollback = false) ->
  run (processExpiryCycle pg itemFaults d now txNow true) st
    = (r, st', evs) ->
  r = Ok tt /\
  (forall e, ~ In (EvLog Err (MainLoopError e)) evs) /\
  forall c, In c (selectCandidates now d st) ->
    (txRefused (itemFaults (id c)) c = true ->
       In c (bookings_tbl st') /\
       exists e, In (EvLog Err (FailedToExpire (id c) e)) evs) /\
    (txRefused (itemFaults (id c)) c = false ->
       lookupBooking (id c) st'
         = Some (withBookingStatus FAILED (txNow (id c)) c) /\
       freeIn (seats c) st').
Proof.
  intros Hpk E1 E2 E3 Hok Hrun.
  pose proof (selectCandidates_NoDup now d st Hpk) as Hnd.
  assert (Hok' : forall i, In i (map id (selectCandidates now d st)) ->
            itemFaults i SConnect = false /\ itemFaults i SRollback = false).
  { intros i Hi. apply in_map_iff in Hi as [c [<- Hc]]. now apply Hok. }
  destruct (processExpiryCycle_run pg itemFaults d now txNow st r st' evs
              E1 E2 E3 Hnd Hok' (candidates_pending now d st Hpk) Hrun)
    as (-> & -> & Hlog & Hno).
  split; [reflexivity|]. split; [exact Hno|].
  intros c Hc. pose proof (selectCandidates_In _ _ _ _ Hc) as [Hin Hs].
  pose proof (lookupBooking_pk st c Hpk Hin) as Hl.
  assert (Hi : In (id c) (map id (selectCandidates now d st)))
    by now apply in_map.
  split; intros Hr.
  - split; [|now apply (Hlog (id c) c)].
    pose proof (fold_itemStore_refused itemFaults txNow _ _ st c Hnd Hi Hl Hr)
      as Hsel.
    rewrite (selectBooking_pk st c Hpk Hin) in Hsel.
    assert (Hc' : In c (selectBooking (id c)
                     (fold_left (itemStore itemFaults txNow)
                        (map id (selectCandidates now d st)) st)))
      by (rewrite Hsel; now left).
    now apply selectBooking_In in Hc'.
  - apply fold_itemStore_expired; try assumption.
    now apply isStale_pending in Hs.
Qed.

(** ** The row count check of [createBooking] *)

(** Under [UNIQUE (show_id, seat_number)], the lock query returns as many
    rows as labels were asked for exactly when no label is repeated and
    every label has a seat in the show. *)
Theorem selectSeats_count_matches_iff showId labels st :
  NoDup (map seatKey (seats_tbl st)) ->
  (length (selectSeats showId labels st) = length labels <->
   NoDup labels /\
   forall l, In l labels ->
     exists s, In s (seats_tbl st) /\ seat_show_id s = showId /\
               seat_number s = l).
Proof.
  intros Hu.
  pose proof (selectSeats_labels_NoDup showId labels st Hu) as Hnd.
  assert (Hincl : incl (map seat_number (selectSeats showId labels st)) labels).
  { intros x Hx. apply in_map_iff in Hx as [s [<- Hs]].
    now apply selectSeats_In in Hs. }
  split.
  - intros Hlen. split.
    + apply (NoDup_incl_NoDup Hnd); [rewrite length_map; lia | exact Hincl].
    + intros l Hl.
      destruct (selectSeats_all_found showId labels st Hu Hlen l Hl)
        as [s [Hs Hn]].
      apply selectSeats_In in Hs as (Hs & Hshow & _). eauto.
  - intros [Hlab Hall].
    assert (Hincl' : incl labels
                       (map seat_number (selectSeats showId labels st))).
    { intros l Hl. destruct (Hall l Hl) as (s & Hs & Hshow & Hn).
      apply in_map_iff. exists s. split; [assumption|].
      apply selectSeats_In. rewrite Hn. auto. }
    pose proof (NoDup_incl_length Hnd Hincl) as H1.
    pose proof (NoDup_incl_length Hlab Hincl') as H2.
    rewrite length_map in H1, H2. lia.
Qed.

(** When the lock query returns a number of rows other than the number of
    labels, [createBooking] throws [SeatsDoNotExist] and changes no seat;
    with a new booking id the store is left as it was. (The store refuses
    none of the statements up to the rollback.) *)
Theorem createBooking_count_mismatch
    pg bookingId now showId seatNumbers userId st r st' evs :
  showId <> [] -> seatNumbers <> [] ->
  refuses pg SConnect = false -> refuses pg SBegin = false ->
  refuses pg (SLockSeats showId seatNumbers) = false ->
  refuses pg SRollback = false ->
  length (selectSeats showId seatNumbers st) <> length seatNumbers ->
  run (createBooking pg bookingId now showId seatNumbers userId) st
    = (r, st', evs) ->
  r = Throw SeatsDoNotExist /\
  seats_tbl st' = seats_tbl st /\
  (hasBooking bookingId st = false -> st' = st).
Proof.
  intros Hs Hn E1 E2 E3 E4 Hlen Hrun.
  destruct (createBooking_lock_phase _ _ _ _ _ _ _ _ _ _
              Hs Hn E1 E2 E3 E4 Hrun) as [H _].
  destruct (H Hlen) as [-> Hst]. split; [reflexivity|].
  destruct Hst as [-> | ->].
  - auto.
  - split; [reflexivity|]. intros Hf. now apply markFailed_fresh.
Qed.

(** ** Reading a booking back *)

Lemma getBooking_run pg bookingId st r st' evs :
  bookingId <> [] ->
  run (getBooking pg bookingId) st = (r, st', evs) ->
  st' = st /\
  r = (if refuses pg (SSelectBooking bookingId)
       then Throw (StoreFailure (SSelectBooking bookingId))
       else Ok (lookupBooking bookingId st)).
Proof.
  intros Hne. unfold run, getBooking.
  replace (jsstring_eqb bookingId []) with false
    by (symmetry; now apply jsstring_eqb_neq).
  unfold_js. cbn.
  destruct (refuses pg (SSelectBooking bookingId)); done_run; auto.
Qed.

(** A booking returned by [createBooking] is what [getBooking] returns
    for its id, and reading it changes nothing. *)
Theorem getBooking_after_createBooking
    pg pg' bookingId now showId seatNumbers userId st b st' evs r2 st2 evs2 :
  bookingId <> [] ->
  run (createBooking pg bookingId now showId seatNumbers userId) st
    = (Ok b, st', evs) ->
  refuses pg' (SSelectBooking bookingId) = false ->
  run (getBooking pg' bookingId) st' = (r2, st2, evs2) ->
  r2 = Ok (Some b) /\ st2 = st'.
Proof.
  intros Hne Hrun Hq Hget.
  apply createBooking_spec in Hrun.
  destruct Hrun as [[e [He _]] | (Hfresh & _ & _ & Hb & ->)]; [discriminate|].
  injection Hb as ->.
  destruct (getBooking_run _ _ _ _ _ _ Hne Hget) as [-> ->].
  rewrite Hq. split; [|reflexivity]. f_equal.
  unfold lookupBooking, selectBooking. cbn. rewrite filter_app. cbn.
  rewrite jsstring_eqb_refl.
  fold (selectBooking bookingId st).
  rewrite selectBooking_absent by now apply hasBooking_false.
  reflexivity.
Qed.

(** ** No double booking *)

(** A call of [createBooking] made on the store a successful call left,
    for the same show and naming one of the labels of that call, does
    not return a booking, and no seat changes status. *)
Theorem createBooking_overlap_fails
    pg1 b1 now1 u1 labels1 pg2 b2 now2 u2 labels2 showId l
    st bk st1 evs1 r2 st2 evs2 :
  NoDup (map seatKey (seats_tbl st)) ->
  run (createBooking pg1 b1 now1 showId labels1 u1) st = (Ok bk, st1, evs1) ->
  In l labels1 -> In l labels2 ->
  run (createBooking pg2 b2 now2 showId labels2 u2) st1 = (r2, st2, evs2) ->
  (exists e, r2 = Throw e) /\ seats_tbl st2 = seats_tbl st1.
Proof.
  intros Hu Hrun1 Hl1 Hl2 Hrun2.
  apply createBooking_spec in Hrun1.
  destruct Hrun1 as [[e [He _]] | (_ & Hlen & _ & _ & ->)]; [discriminate|].
  destruct (selectSeats_all_found showId labels1 st Hu Hlen l Hl1)
    as [s [Hs Hn]].
  set (st1 := updateSeats _ BOOKED _) in *.
  assert (Hheld : In (withStatus BOOKED s) (selectSeats showId labels2 st1)).
  { apply selectSeats_In. cbn.
    apply selectSeats_In in Hs as Hs'. destruct Hs' as (Hin & Hshow & _).
    split; [|rewrite Hn; auto].
    apply in_map_iff. exists s. split; [|assumption].
    replace (any_eq (seat_id s)
               (map seat_id (selectSeats showId labels1 st))) with true;
      [reflexivity|].
    symmetry. apply any_eq_In. now apply in_map. }
  apply createBooking_spec in Hrun2.
  destruct Hrun2 as [[e [-> [-> | ->]]] | (_ & _ & Hfind & _ & _)].
  - eauto.
  - eauto.
  - pose proof (find_none _ _ Hfind _ Hheld) as Hcontra. discriminate.
Qed.

(** In every reachable store, as long as a reservation that is
    [PENDING] or [CONFIRMED] lists a seat, no call of [createBooking] for
    the seat's show that names its label returns a booking, and no seat
    changes status. *)
Theorem createBooking_held_seat_fails
    pg bookingId now showId labels userId st s bk r st' evs :
  reachable st ->
  In s (seats_tbl st) -> seat_show_id s = showId ->
  In (seat_number s) labels ->
  In bk (bookings_tbl st) -> holdsUnits bk = true ->
  In (seat_id s) (seats bk) ->
  run (createBooking pg bookingId now showId labels userId) st
    = (r, st', evs) ->
  (exists e, r = Throw e) /\ seats_tbl st' = seats_tbl st.
Proof.
  intros Hr Hs Hshow Hlabel Hbk Hholds Hlists Hrun.
  destruct (reachable_Consistent st Hr) as [_ _ Hagree _].
  assert (Hbooked : seat_status s = BOOKED).
  { apply (Hagree s Hs). intros Hnone.
    assert (Hin : In bk (holders (seat_id s) st))
      by (apply holders_In; auto).
    rewrite Hnone in Hin. destruct Hin. }
  assert (Hrow : In s (selectSeats showId labels st))
    by (apply selectSeats_In; auto).
  apply createBooking_spec in Hrun.
  destruct Hrun as [[e [-> [-> | ->]]] | (_ & _ & Hfind & _ & _)].
  - eauto.
  - eauto.
  - pose proof (find_none _ _ Hfind _ Hrow) as Hcontra.
    unfold isTaken in Hcontra. rewrite Hbooked in Hcontra. discriminate.
Qed.

(** ** Skipped candidates release their client twice *)

(** When the candidate's row is missing or no longer [PENDING] and the
    store refuses nothing, the loop body rolls back, releases the client
    in the branch and again in the [finally] block. With a pool that
    throws on a second release the loop body throws, and the loop over
    the remaining candidates ends there with the store unchanged. *)
Theorem expireOne_skip_releases_twice pg itemFaults txNow bookingId rest st :
  itemFaults bookingId SConnect = false ->
  itemFaults bookingId SBegin = false ->
  itemFaults bookingId (SLockBooking bookingId) = false ->
  itemFaults bookingId SRollback = false ->
  lookupBooking bookingId st = None \/
  (exists b, lookupBooking bookingId st = Some b /\ status b <> PENDING) ->
  let X := run (expireOne pg itemFaults txNow bookingId) st in
  releases (snd X) = 2 /\
  fst (fst X) = (if throwsOnDoubleRelease pg then Throw DoubleRelease
                 else Ok tt) /\
  (throwsOnDoubleRelease pg = true ->
   run (forOf (bookingId :: rest) (expireOne pg itemFaults txNow)) st
   = (Throw DoubleRelease, st, snd X)).
Proof.
  intros E1 E2 E3 E4 Hskip. unfold lookupBooking in Hskip.
  unfold run. cbn [forOf]. unfold bind.
  unfold expireOne. unfold_js. cbn.
  rewrite E1. cbn. rewrite E2. cbn. rewrite E3. cbn.
  destruct (selectBooking bookingId st) as [|b l] eqn:Es; cbn.
  - rewrite E4. norm.
    destruct (throwsOnDoubleRelease pg); cbn; repeat split; discriminate.
  - destruct Hskip as [Hn | [b' [Hb Hp]]]; [discriminate|].
    cbn in Hb. injection Hb as <-.
    destruct (status b) eqn:Est; [congruence| |]; cbn; rewrite E4; norm;
      destruct (throwsOnDoubleRelease pg); cbn; repeat split; discriminate.
Qed.

(** ** A cycle without the advisory lock *)

(** When another worker holds the advisory lock, or the lock query is
    refused, the cycle sends nothing but that query, does not unlock,
    leaves the store as it was and returns normally. *)
Theorem processExpiryCycle_without_lock
    pg itemFaults d now txNow lockFree st r st' evs :
  refuses pg SConnect = false ->
  lockFree = false \/ refuses pg STryAdvisoryLock = true ->
  run (processExpiryCycle pg itemFaults d now txNow lockFree) st
    = (r, st', evs) ->
  r = Ok tt /\ st' = st /\ sent evs = [SConnect; STryAdvisoryLock] /\
  releases evs = 1.
Proof.
  intros E1 Hlock. unfold run, processExpiryCycle. unfold_js. cbn.
  rewrite E1. cbn.
  destruct (refuses pg STryAdvisoryLock) eqn:E2; cbn.
  - done_run. auto.
  - destruct Hlock as [-> | Hl]; [|discriminate]. done_run. auto.
Qed.

(** ** What the create handler throws and what it passes on *)


(** ** The cycle always cleans up *)

Lemma filter_twice {A} (p : A -> bool) (l : list A) :
  filter p (filter p l) = filter p l.
Proof.
  induction l as [|x l IH]; cbn; [reflexivity|].
  destruct (p x) eqn:E; cbn; rewrite ?E, IH; reflexivity.
Qed.

Lemma expireOne_pool pg itf txNow i w r w' :
  expireOne pg itf txNow i w = (r, w') ->
  (leased w' = leased w \/
   leased w' = filter (fun x => negb (Nat.eqb (clients w) x)) (leased w)) /\
  clients w <= clients w'.
Proof.
  unfold expireOne. unfold_js. cbn.
  destruct (itf i SConnect) eqn:E1; cbn.
  { done_run; rewrite ?filter_twice; auto. }
  destruct (itf i SBegin) eqn:E2; cbn.
  { crush_refuses; done_run; rewrite ?filter_twice; auto. }
  destruct (itf i (SLockBooking i)) eqn:E3; cbn.
  { crush_refuses; done_run; rewrite ?filter_twice; auto. }
  destruct (selectBooking i (committed w)) as [|b rest] eqn:Es; cbn.
  { crush_refuses; done_run; rewrite ?filter_twice; auto. }
  destruct (BookingStatus_eqb (status b) PENDING) eqn:Ep; cbn.
  2:{ crush_refuses; done_run; rewrite ?filter_twice; auto. }
  destruct (itf i (SExpireBooking i)) eqn:E4; cbn.
  { crush_refuses; done_run; rewrite ?filter_twice; auto. }
  destruct (seats b) as [|u us] eqn:Eseats; cbn.
  - destruct (itf i SCommit) eqn:E5; cbn.
    { crush_refuses; done_run; rewrite ?filter_twice; auto. }
    done_run. rewrite ?filter_twice. auto.
  - destruct (itf i (SFreeSeats (u :: us))) eqn:E6; cbn.
    { crush_refuses; done_run; rewrite ?filter_twice; auto. }
    destruct (itf i SCommit) eqn:E5; cbn.
    { crush_refuses; done_run; rewrite ?filter_twice; auto. }
    done_run. rewrite ?filter_twice. auto.
Qed.

(** A client leased before the loop is still leased after it. *)
Lemma forOf_expireOne_keeps_lease pg itf txNow ids w r w' c :
  poolOk w -> In c (leased w) ->
  forOf ids (expireOne pg itf txNow) w = (r, w') ->
  In c (leased w').
Proof.
  revert w. induction ids as [|i ids IH]; intros w Hpool Hc; cbn.
  - intros H. inversion H; now subst.
  - unfold bind at 1.
    destruct (expireOne pg itf txNow i w) as [r1 w1] eqn:E1.
    destruct (expireOne_pool _ _ _ _ _ _ _ E1) as [Hl Hn].
    assert (Hlt : c < clients w).
    { unfold poolOk in Hpool. rewrite Forall_forall in Hpool. auto. }
    assert (Hc1 : In c (leased w1)).
    { destruct Hl as [-> | ->]; [assumption|].
      apply filter_In. split; [assumption|].
      apply negb_true_iff, Nat.eqb_neq. lia. }
    assert (Hpool1 : poolOk w1).
    { unfold poolOk in *. rewrite Forall_forall in *. intros x Hx.
      assert (In x (leased w)).
      { destruct Hl as [Hl | Hl]; rewrite Hl in Hx; [assumption|].
        now apply filter_In in Hx. }
      specialize (Hpool x H). lia. }
    destruct r1.
    + intros H. now apply (IH w1).
    + intros H. inversion H; now subst.
Qed.

Lemma leased_existsb c l : In c l -> existsb (Nat.eqb c) l = true.
Proof.
  intros H. apply existsb_exists. exists c. split; [assumption|].
  apply Nat.eqb_refl.
Qed.

Lemma ends_with_app {A} (p t : list A) (x : A) :
  (exists t0, t = t0 ++ [x]) -> exists l0, p ++ t = l0 ++ [x].
Proof.
  intros [t0 ->]. exists (p ++ t0). now rewrite app_assoc.
Qed.

Ltac ends_with :=
  first [ eexists []; reflexivity | eexists [_]; reflexivity
        | eexists [_; _]; reflexivity | eexists [_; _; _]; reflexivity
        | eexists [_; _; _; _]; reflexivity
        | eexists [_; _; _; _; _]; reflexivity
        | eexists [_; _; _; _; _; _]; reflexivity
        | eexists [_; _; _; _; _; _; _]; reflexivity
        | eexists [_; _; _; _; _; _; _; _]; reflexivity ].

Ltac cleans_up :=
  split; [reflexivity|]; split;
  [ first [ends_with | apply ends_with_app; ends_with]
  | try discriminate; intros _ _; apply in_split;
    first [ cbn; now auto 20 | apply in_or_app; right; cbn; now auto 20 ] ].

(** Once the worker has its connection, a cycle returns normally
    whatever the store refuses afterwards and whatever happens in the
    loop, its last act is to release that connection, and a cycle that
    got the advisory lock sends the unlock. *)
Theorem processExpiryCycle_cleans_up
    pg itemFaults d now txNow lockFree st r st' evs :
  refuses pg SConnect = false ->
  run (processExpiryCycle pg itemFaults d now txNow lockFree) st
    = (r, st', evs) ->
  r = Ok tt /\
  (exists evs0, evs = evs0 ++ [EvRelease]) /\
  (refuses pg STryAdvisoryLock = false -> lockFree = true ->
   exists evs1 evs2, evs = evs1 ++ EvStmt SAdvisoryUnlock :: evs2).
Proof.
  intros E1. unfold run, processExpiryCycle. unfold_js. cbn.
  rewrite E1. cbn.
  destruct (refuses pg STryAdvisoryLock) eqn:E2; cbn.
  { done_run. cleans_up. }
  destruct lockFree; cbn.
  2:{ done_run. cleans_up. }
  destruct (refuses pg (SFetchCandidates d)) eqn:E3; cbn.
  { crush_refuses; done_run; cleans_up. }
  destruct (Nat.eqb _ 0) eqn:E4; cbn.
  { crush_refuses; done_run; cleans_up. }
  match goal with
  | |- context [forOf ?ids ?body ?w] =>
      change (forOf ids body w)
        with (forOf ids (expireOne pg itemFaults txNow) w);
      destruct (forOf ids (expireOne pg itemFaults txNow) w)
        as [r1 w1] eqn:Eloop;
      assert (Hlease : In 0 (leased w1))
        by (apply (forOf_expireOne_keeps_lease _ _ _ _ _ _ _ 0) in Eloop;
            [assumption | repeat constructor | now left])
  end.
  apply leased_existsb in Hlease. cbn in Hlease.
  destruct r1 as [[]|e]; cbn; rewrite ?Hlease;
    destruct (refuses pg SAdvisoryUnlock) eqn:E5; cbn; rewrite ?Hlease;
    cbn; intros H; inversion H; subst; repeat rewrite <- app_assoc; cbn;
    cleans_up.
Qed.

(** ** Creating a show *)

(** [createShow] is all or nothing: a call that throws leaves the store
    as it was; a call that returns added the show row and one
    [AVAILABLE] seat per number from 1 to [totalSeats], labelled with the
    decimal numeral, and nothing else. *)
Theorem createShow_all_or_nothing
    pg parseDate showId seatUuid name start_time totalSeats st r st' evs :
  run (createShow pg parseDate showId seatUuid name start_time totalSeats) st
    = (r, st', evs) ->
  (exists e, r = Throw e /\ st' = st) \/
  (exists start,
     parseDate start_time = Some start /\ (0 < totalSeats)%Z /\
     name <> [] /\ hasShow showId st = false /\
     r = Ok (mkShow showId name start totalSeats) /\
     st' = mkStore
             (shows_tbl st ++ [mkShow showId name start totalSeats])
             (seats_tbl st ++
              map (fun i => mkSeat (seatUuid i) showId (toString i) AVAILABLE)
                  (seq 1 (Z.to_nat totalSeats)))
             (bookings_tbl st)).
Proof.
  unfold run, createShow.
  destruct name as [|c name'].
  { cbn. intros H; inversion H; subst; eauto. }
  cbn [length Nat.eqb].
  destruct start_time as [|t start_time'].
  { cbn. intros H; inversion H; subst; eauto. }
  cbn [length Nat.eqb].
  destruct (parseDate (t :: start_time')) as [start|] eqn:Eparse.
  2:{ cbn. intros H; inversion H; subst; eauto. }
  destruct (totalSeats <=? 0)%Z eqn:Et.
  { cbn. intros H; inversion H; subst; eauto. }
  rewrite (seatParams_nonempty showId seatUuid totalSeats Et).
  unfold_js. cbn.
  destruct (refuses pg SConnect) eqn:E1; cbn.
  { done_run; eauto. }
  destruct (refuses pg SBegin) eqn:E2; cbn.
  { crush_refuses; done_run; eauto. }
  destruct (refuses pg (SInsertShow _ _ _ _)) eqn:E3; cbn.
  { crush_refuses; done_run; eauto. }
  destruct (hasShow showId st) eqn:E4; cbn.
  { crush_refuses; done_run; eauto. }
  destruct (refuses pg (SInsertSeats _)) eqn:E5; cbn.
  { crush_refuses; done_run; eauto. }
  match goal with
  | |- context [seatsConstraints ?tbl && ?fk] =>
      destruct (seatsConstraints tbl) eqn:E6; cbn;
      [destruct fk eqn:E7; cbn|]
  end.
  2,3: crush_refuses; done_run; eauto.
  destruct (refuses pg SCommit) eqn:E8; cbn.
  { crush_refuses; done_run; eauto. }
  done_run. right. exists start. apply Z.leb_gt in Et.
  repeat split; try assumption; try discriminate.
  unfold seatParams. now rewrite map_map.
Qed.

(** ** A cycle touches only its batch *)

Lemma expireOne_committed_in pg itf txNow i w r w' :
  expireOne pg itf txNow i w = (r, w') ->
  expiresIn [i] (committed w) (committed w').
Proof.
  intros H. apply expireOne_committed in H. destruct H as [-> | ->].
  - constructor.
  - constructor; [constructor | now left].
Qed.

Lemma expiresIn_incl ids ids' st st' :
  incl ids ids' -> expiresIn ids st st' -> expiresIn ids' st st'.
Proof.
  intros Hincl H. induction H; [constructor|].
  constructor; auto.
Qed.

Lemma expiresIn_trans ids st1 st2 st3 :
  expiresIn ids st1 st2 -> expiresIn ids st2 st3 -> expiresIn ids st1 st3.
Proof.
  intros H12 H23. induction H23; [assumption|]. now constructor.
Qed.

Lemma forOf_expireOne_committed_in pg itf txNow ids w r w' :
  forOf ids (expireOne pg itf txNow) w = (r, w') ->
  expiresIn ids (committed w) (committed w').
Proof.
  revert w. induction ids as [|i ids IH]; intros w; cbn.
  - intros H. inversion H; subst. constructor.
  - unfold bind at 1.
    destruct (expireOne pg itf txNow i w) as [r1 w1] eqn:E1.
    apply expireOne_committed_in in E1.
    assert (Hstep : expiresIn (i :: ids) (committed w) (committed w1)).
    { apply (expiresIn_incl [i]); [|assumption].
      intros x [<- | []]. now left. }
    destruct r1.
    + intros H. apply IH in H.
      apply (expiresIn_trans _ _ _ _ Hstep).
      apply (expiresIn_incl ids); [|assumption].
      intros x Hx. now right.
    + intros H. inversion H; subst. exact Hstep.
Qed.

Lemma processExpiryCycle_committed_in
    pg itf d now txNow lockFree st r st' evs :
  run (processExpiryCycle pg itf d now txNow lockFree) st = (r, st', evs) ->
  expiresIn (map id (selectCandidates now d st)) st st'.
Proof.
  unfold run, processExpiryCycle. unfold_js. cbn.
  destruct (refuses pg SConnect) eqn:E1; cbn.
  { done_run. constructor. }
  destruct (refuses pg STryAdvisoryLock) eqn:E2; cbn.
  { crush_refuses; done_run; constructor. }
  destruct lockFree; cbn.
  2:{ crush_refuses; done_run; constructor. }
  destruct (refuses pg (SFetchCandidates d)) eqn:E3; cbn.
  { crush_refuses; done_run; constructor. }
  destruct (Nat.eqb _ 0) eqn:E4; cbn.
  { crush_refuses; done_run; constructor. }
  match goal with
  | |- context [forOf ?ids ?body ?w] =>
      change (forOf ids body w) with (forOf ids (expireOne pg itf txNow) w);
      destruct (forOf ids (expireOne pg itf txNow) w) as [r1 w1] eqn:Eloop
  end.
  apply forOf_expireOne_committed_in in Eloop. cbn in Eloop.
  destruct r1; cbn; crush_refuses; done_run; exact Eloop.
Qed.

(** Whatever the store refuses and however the cycle ends, it changes no
    booking outside its batch of candidates, inserts and deletes nothing,
    and books no seat: units that were free before are free after. *)
Theorem processExpiryCycle_touches_only_batch
    pg itemFaults d now txNow lockFree st r st' evs :
  run (processExpiryCycle pg itemFaults d now txNow lockFree) st
    = (r, st', evs) ->
  (forall k, ~ In k (map id (selectCandidates now d st)) ->
     selectBooking k st' = selectBooking k st) /\
  map id (bookings_tbl st') = map id (bookings_tbl st) /\
  map seat_id (seats_tbl st') = map seat_id (seats_tbl st) /\
  shows_tbl st' = shows_tbl st /\
  (forall X, freeIn X st -> freeIn X st').
Proof.
  intros H. apply processExpiryCycle_committed_in in H.
  induction H as [|st1 t i _ IH Hi].
  - repeat split; auto.
  - destruct IH as (Hsel & Hids & Hseats & Hshows & Hfree).
    split; [|split; [|split; [|split]]].
    + intros k Hk. rewrite selectBooking_expireStore_other; [now apply Hsel|].
      intros ->. contradiction.
    + rewrite <- Hids. unfold expireStore.
      destruct (selectBooking i st1) as [|b rest]; [reflexivity|].
      destruct (BookingStatus_eqb (status b) PENDING); [|reflexivity].
      cbn. rewrite map_map. apply map_ext. intros x.
      now destruct (jsstring_eqb (id x) i).
    + rewrite <- Hseats. unfold expireStore.
      destruct (selectBooking i st1) as [|b rest]; [reflexivity|].
      destruct (BookingStatus_eqb (status b) PENDING); [|reflexivity].
      now rewrite seat_ids_updateSeats.
    + rewrite <- Hshows. unfold expireStore.
      destruct (selectBooking i st1) as [|b rest]; [reflexivity|].
      now destruct (BookingStatus_eqb (status b) PENDING).
    + intros X HX. apply freeIn_expireStore. now apply Hfree.
Qed.

(** ** No seat is left booked by failed reservations *)

(** In every reachable store, a seat all of whose reservations have
    [FAILED] (or that no reservation lists) is [AVAILABLE]. *)
Theorem failed_reservations_hold_nothing st s :
  reachable st -> In s (seats_tbl st) ->
  (forall b, In b (bookings_tbl st) -> In (seat_id s) (seats b) ->
     status b = FAILED) ->
  seat_status s = AVAILABLE.
Proof.
  intros Hr Hs Hall.
  destruct (reachable_Consistent st Hr) as [_ _ Hagree _].
  destruct (seat_status s) eqn:Est; [reflexivity|].
  exfalso. apply (proj1 (Hagree s Hs)) in Est. apply Est.
  destruct (holders (seat_id s) st) as [|b l] eqn:Eh; [reflexivity|].
  assert (Hb : In b (holders (seat_id s) st)) by (rewrite Eh; now left).
  apply holders_In in Hb as (Hb & Hh & Hu).
  specialize (Hall b Hb Hu). unfold holdsUnits in Hh. rewrite Hall in Hh.
  discriminate.
Qed.

(** * The further properties at work *)

(** With [BEGIN] refused for [b1] only, [b1] keeps its row and [b3] is
    expired. *)
Lemma expiry_failure_isolated_demo :
  let X := run (processExpiryCycle okPg refusedBegin 2 crowdNow
                  (fun _ => crowdNow) true) demoTwoHeld in
  fst (fst X) = Ok tt /\
  statusOf (lit "b1") (snd (fst X)) = Some PENDING /\
  statusOf (lit "b3") (snd (fst X)) = Some FAILED.
Proof.
  intros X.
  destruct (expiry_failure_isolated_when_rollback_succeeds okPg refusedBegin
              2 crowdNow (fun _ => crowdNow) demoTwoHeld
              (fst (fst X)) (snd (fst X)) (snd X)) as (H1 & _ & _).
  - vm_compute. constructor; [|constructor; [intros []|constructor]].
    intros [H | []]. discriminate.
  - reflexivity.
  - reflexivity.
  - reflexivity.
  - intros c Hc. vm_compute in Hc.
    destruct Hc as [<- | [<- | []]]; split; vm_compute; reflexivity.
  - vm_compute. reflexivity.
  - split; [exact H1|]. split; vm_compute; reflexivity.
Defined.

Lemma selectSeats_count_matches_iff_demo :
  length (selectSeats demoShow [lit "1"; lit "2"] demoStore) = 2 <->
  NoDup [lit "1"; lit "2"] /\
  forall l, In l [lit "1"; lit "2"] ->
    exists s, In s (seats_tbl demoStore) /\ seat_show_id s = demoShow /\
              seat_number s = l.
Proof.
  apply (selectSeats_count_matches_iff demoShow [lit "1"; lit "2"] demoStore).
  vm_compute. repeat constructor; cbn; intuition discriminate.
Defined.

(** The scenario of the spec: label 9 does not exist. *)
Lemma createBooking_count_mismatch_demo :
  let X := run (createBooking okPg (lit "b2") 11 demoShow [lit "9"] None)
             demoStore in
  fst (fst X) = Throw SeatsDoNotExist /\
  seats_tbl (snd (fst X)) = seats_tbl demoStore /\
  (hasBooking (lit "b2") demoStore = false -> snd (fst X) = demoStore).
Proof.
  intros X.
  apply (createBooking_count_mismatch okPg (lit "b2") 11 demoShow [lit "9"]
           None demoStore (fst (fst X)) (snd (fst X)) (snd X));
    try discriminate; reflexivity.
Defined.

Lemma getBooking_after_createBooking_demo :
  let b := mkBooking (lit "b1") demoShow None [lit "s1"; lit "s2"]
             PENDING 10 10 in
  fst (fst (run (getBooking okPg (lit "b1")) demoHeld)) = Ok (Some b) /\
  snd (fst (run (getBooking okPg (lit "b1")) demoHeld)) = demoHeld.
Proof.
  intros b.
  apply (getBooking_after_createBooking okPg okPg (lit "b1") 10 demoShow
           [lit "1"; lit "2"] None demoStore b demoHeld
           (snd (run (createBooking okPg (lit "b1") 10 demoShow
                        [lit "1"; lit "2"] None) demoStore))
           _ _ (snd (run (getBooking okPg (lit "b1")) demoHeld)));
    try discriminate; vm_compute; reflexivity.
Defined.

Lemma createBooking_overlap_fails_demo :
  let X := run (createBooking okPg (lit "b2") 11 demoShow
                  [lit "2"; lit "3"] None) demoHeld in
  (exists e, fst (fst X) = Throw e) /\
  seats_tbl (snd (fst X)) = seats_tbl demoHeld.
Proof.
  intros X.
  apply (createBooking_overlap_fails okPg (lit "b1") 10 None
           [lit "1"; lit "2"] okPg (lit "b2") 11 None [lit "2"; lit "3"]
           demoShow (lit "2") demoStore
           (mkBooking (lit "b1") demoShow None [lit "s1"; lit "s2"]
              PENDING 10 10)
           demoHeld
           (snd (run (createBooking okPg (lit "b1") 10 demoShow
                        [lit "1"; lit "2"] None) demoStore))
           (fst (fst X)) (snd (fst X)) (snd X)).
  - vm_compute. repeat constructor; cbn; intuition discriminate.
  - vm_compute. reflexivity.
  - right. now left.
  - now left.
  - vm_compute. reflexivity.
Defined.

(** With seat 2 held by [b1], a request for seats 2 and 3 fails. *)
Lemma createBooking_held_seat_fails_demo :
  let X := run (createBooking okPg (lit "b2") 11 demoShow
                  [lit "2"; lit "3"] None) demoHeld in
  (exists e, fst (fst X) = Throw e) /\
  seats_tbl (snd (fst X)) = seats_tbl demoHeld.
Proof.
  intros X.
  apply (createBooking_held_seat_fails okPg (lit "b2") 11 demoShow
           [lit "2"; lit "3"] None demoHeld (demoSeat "2" BOOKED)
           (mkBooking (lit "b1") demoShow None [lit "s1"; lit "s2"]
              PENDING 10 10)
           (fst (fst X)) (snd (fst X)) (snd X) demoHeld_reachable).
  - vm_compute. auto.
  - vm_compute. reflexivity.
  - vm_compute. auto.
  - vm_compute. auto.
  - vm_compute. reflexivity.
  - vm_compute. auto.
  - vm_compute. reflexivity.
Defined.

Lemma expireOne_skip_releases_twice_demo :
  let X := run (expireOne okPg (fun _ => noFaults) (fun _ => crowdNow)
                  (lit "zz")) demoHeld in
  releases (snd X) = 2 /\
  fst (fst X) = Throw DoubleRelease /\
  (true = true ->
   run (forOf [lit "zz"; lit "b1"]
          (expireOne okPg (fun _ => noFaults) (fun _ => crowdNow))) demoHeld
   = (Throw DoubleRelease, demoHeld, snd X)).
Proof.
  apply (expireOne_skip_releases_twice okPg (fun _ => noFaults)
           (fun _ => crowdNow) (lit "zz") [lit "b1"] demoHeld);
    try reflexivity.
  left. vm_compute. reflexivity.
Defined.

Lemma processExpiryCycle_without_lock_demo :
  let X := run (processExpiryCycle okPg (fun _ => noFaults) 2 crowdNow
                  (fun _ => crowdNow) false) demoHeld in
  fst (fst X) = Ok tt /\ snd (fst X) = demoHeld /\
  sent (snd X) = [SConnect; STryAdvisoryLock] /\ releases (snd X) = 1.
Proof.
  intros X.
  apply (processExpiryCycle_without_lock okPg (fun _ => noFaults) 2 crowdNow
           (fun _ => crowdNow) false demoHeld
           (fst (fst X)) (snd (fst X)) (snd X)).
  - reflexivity.
  - now left.
  - vm_compute. reflexivity.
Defined.


Lemma processExpiryCycle_cleans_up_demo :
  let X := run (processExpiryCycle okPg lostConnection 2 crowdNow
                  (fun _ => crowdNow) true) demoTwoHeld in
  fst (fst X) = Ok tt /\
  (exists evs0, snd X = evs0 ++ [EvRelease]) /\
  (refuses okPg STryAdvisoryLock = false -> true = true ->
   exists evs1 evs2, snd X = evs1 ++ EvStmt SAdvisoryUnlock :: evs2).
Proof.
  intros X.
  apply (processExpiryCycle_cleans_up okPg lostConnection 2 crowdNow
           (fun _ => crowdNow) true demoTwoHeld
           (fst (fst X)) (snd (fst X)) (snd X)).
  - reflexivity.
  - vm_compute. reflexivity.
Defined.

Lemma createShow_all_or_nothing_demo :
  let X := run (createShow okPg (fun _ => Some 5%Z) demoShow
                  (fun i => lit "s" ++ toString i) (lit "Show")
                  (lit "2025-01-01") 3) emptyStore in
  (exists e, fst (fst X) = Throw e /\ snd (fst X) = emptyStore) \/
  (exists start,
     Some 5%Z = Some start /\ (0 < 3)%Z /\ lit "Show" <> [] /\
     hasShow demoShow emptyStore = false /\
     fst (fst X) = Ok (mkShow demoShow (lit "Show") start 3) /\
     snd (fst X) = mkStore
             (shows_tbl emptyStore ++ [mkShow demoShow (lit "Show") start 3])
             (seats_tbl emptyStore ++
              map (fun i => mkSeat (lit "s" ++ toString i) demoShow
                              (toString i) AVAILABLE)
                  (seq 1 (Z.to_nat 3)))
             (bookings_tbl emptyStore)).
Proof.
  intros X.
  apply (createShow_all_or_nothing okPg (fun _ => Some 5%Z) demoShow
           (fun i => lit "s" ++ toString i) (lit "Show") (lit "2025-01-01")
           3 emptyStore (fst (fst X)) (snd (fst X)) (snd X)).
  vm_compute. reflexivity.
Defined.

Lemma processExpiryCycle_touches_only_batch_demo :
  let st' := snd (fst (run (processExpiryCycle okPg refusedBegin 2 11
                              (fun _ => 11%Z) true) demoTwoHeld)) in
  selectBooking (lit "b3") st' = selectBooking (lit "b3") demoTwoHeld.
Proof.
  intros st'.
  destruct (processExpiryCycle_touches_only_batch okPg refusedBegin 2 11
              (fun _ => 11%Z) true demoTwoHeld
              (fst (fst (run (processExpiryCycle okPg refusedBegin 2 11
                                (fun _ => 11%Z) true) demoTwoHeld)))
              st'
              (snd (run (processExpiryCycle okPg refusedBegin 2 11
                           (fun _ => 11%Z) true) demoTwoHeld)))
    as [H _].
  - vm_compute. reflexivity.
  - apply H. vm_compute. intros [].
Defined.

(** After the expiry cycle, booking [b1] has [FAILED] and still lists
    seats [s1] and [s2]; both are [AVAILABLE]. *)
Lemma failed_reservations_hold_nothing_demo :
  map seats (bookings_tbl demoExpired) = [[lit "s1"; lit "s2"]] /\
  forall s, In s (seats_tbl demoExpired) -> seat_status s = AVAILABLE.
Proof.
  split; [vm_compute; reflexivity|].
  intros s Hs.
  apply (failed_reservations_hold_nothing demoExpired s demoExpired_reachable
           Hs).
  intros b Hb _. vm_compute in Hb. destruct Hb as [<- | []].
  vm_compute. reflexivity.
Defined.
